(** * Form field store and validation orchestration (useStore / Form)

    A shallow embedding of the form engine of the component library:
    the reducer [fieldsReducer] that owns the per-field records, the rule
    resolver [transfromRules], the two validators [validateField] and
    [validateAllFields], [resetFields] / [setFieldValue], and the
    submission handler [submitForm] of the Form component.

    Conventions of the embedding.
    - A JavaScript object used as a dictionary is a [gmap] keyed by strings,
      holding its own properties.  Every such object of the code is built
      by an object literal, so its prototype is [Object.prototype]: reading
      [obj[name]] gives the own property if there is one, and otherwise the
      member of [Object.prototype] of that name ([inheritedName]) if there is
      one, and otherwise [undefined].  Where the code tests or passes on
      what it read ([if (fields[name])], [errors[name]],
      [initialValues[name]]) the definitions follow that rule.
    - Enumeration of own keys ([mapValues], and [each] on an object that is
      not array-like) goes through [map_to_list]; the enumeration order of a
      JavaScript object is not modelled, and every statement below is
      insensitive to it.  lodash's [each] walks an object with a numeric
      [length] by index; [eachValue] models that for [initialValues].
    - A property that is missing from an object reads as [undefined]; record
      fields that the reducer can leave out are [option]s, [None] standing
      for a missing property.
    - The hook's functions close over the [fields] and [form] of the render
      that created them; they become explicit arguments.  [dispatch] and
      [setForm] hand work to React and return nothing the code looks at, so a
      function of the hook is modelled by the list of effects it performs, in
      program order, together with how it completes.
    - The validation engine (async-validator) is external: it is a function
      argument [validate], from a descriptor and a value map to a settled
      promise.  A call is suspended where it awaits the engine; [Runtime]
      and [tick] let calls start and resume in any order. *)

From Stdlib Require Import ZArith FunctionalExtensionality.
From stdpp Require Import base option list strings gmap fin_maps pretty.

(** ** Values and validation errors *)

(** The field values are opaque to the engine ([any] in the source); the
    embedding keeps the primitive values a form control produces, and
    [JMember n] for the member of [Object.prototype] named [n], which a read
    of [initialValues[n]] can return. *)
Inductive JsValue : Type :=
  | JUndefined
  | JNull
  | JBool (b : bool)
  | JNumber (z : Z)
  | JString (s : string)
  | JMember (n : string).

#[global] Instance JsValue_eq_dec : EqDecision JsValue.
Proof. solve_decision. Defined.

(** [ValidateError] of the engine: a message and the field it belongs to. *)
Record ValidateError : Type := mkValidateError {
  message : string;
  field : string }.

#[global] Instance ValidateError_eq_dec : EqDecision ValidateError.
Proof. solve_decision. Defined.

(** The names of the members of [Object.prototype]: what a read of
    [obj[name]] finds when [obj] has no own property [name]. *)
Definition objectPrototypeNames : list string :=
  ["constructor"; "__defineGetter__"; "__defineSetter__"; "hasOwnProperty";
   "__lookupGetter__"; "__lookupSetter__"; "isPrototypeOf";
   "propertyIsEnumerable"; "toString"; "valueOf"; "__proto__";
   "toLocaleString"].

Definition inheritedName (n : string) : bool :=
  bool_decide (n ∈ objectPrototypeNames).

(** The [length] of such a member: the arity of the function, and
    [undefined] ([None]) for ["__proto__"], which reads as
    [Object.prototype] itself. *)
Definition memberLength (n : string) : option nat :=
  if bool_decide (n = "__proto__") then None
  else if bool_decide (n ∈ ["__defineGetter__"; "__defineSetter__"])
  then Some 2
  else if bool_decide (n ∈ ["toString"; "valueOf"; "toLocaleString"])
  then Some 0
  else Some 1.

(** What the [errors] of a record, or of an [updateValidateResult], can be:
    a list of errors, or the member of [Object.prototype] that
    [errors[name]] reads from the engine's mapping when the mapping has no
    own entry for an inherited [name]. *)
Inductive JsErrors : Type :=
  | ErrorList (l : list ValidateError)
  | ErrorsMember (n : string).

#[warning="-uniform-inheritance"]
Coercion ErrorList : list >-> JsErrors.

#[global] Instance JsErrors_eq_dec : EqDecision JsErrors.
Proof. solve_decision. Defined.

(** [ValidateErrorType]: the aggregate error a failed validation rejects
    with, a flat error list and a per-field mapping. *)
Record ValidateErrorType : Type := mkValidateErrorType {
  err_errors : list ValidateError;
  err_fields : gmap string (list ValidateError) }.

(** How an awaited promise settles. *)
Inductive Settled : Type :=
  | Resolved
  | Rejected (e : ValidateErrorType).

(** How a call completes: it returns, or a [TypeError] escapes it (reading a
    property of [undefined]). *)
Inductive Completion (A : Type) : Type :=
  | Returned (a : A)
  | TypeError.
Arguments Returned {A} a.
Arguments TypeError {A}.

Definition is_returned {A} (c : Completion A) : bool :=
  match c with Returned _ => true | TypeError => false end.

(** [FormState], lines 31-35. *)
Record FormState : Type := mkFormState {
  form_isValid : bool;
  isSubmitting : bool;
  form_errors : gmap string (list ValidateError) }.

(** The argument of [useState] at line 91. *)
Definition initialForm : FormState :=
  {| form_isValid := true; isSubmitting := false; form_errors := ∅ |}.

(** What [validateAllFields] returns. *)
Record AllResult : Type := mkAllResult {
  res_isValid : bool;
  res_errors : gmap string (list ValidateError);
  values : gmap string JsValue }.

Section Store.
(** [RuleItem] is the engine's static rule descriptor. *)
Context {RuleItem : Type}.

(** [CustomRule = RuleItem | CustomRuleFunc]; the run-time test
    [typeof rule === 'function'] becomes the constructor. *)
Inductive CustomRule : Type :=
  | Static (r : RuleItem)
  | Generator (f : (string → JsValue) → RuleItem).

(** [FieldDetail], lines 11-17, plus the [label] that FormItem puts in the
    record it registers.  [value] reads [JUndefined] when missing. *)
Record FieldDetail : Type := mkFieldDetail {
  label : option string;
  name : option string;
  value : JsValue;
  rules : option (list CustomRule);
  isValid : option bool;
  errors : option JsErrors }.

(** [{...undefined}]: the object with no property. *)
Definition noFields : FieldDetail :=
  {| label := None; name := None; value := JUndefined;
     rules := None; isValid := None; errors := None |}.

(** [{...state[name]}]: spreading [undefined] copies nothing. *)
Definition spread (o : option FieldDetail) : FieldDetail :=
  match o with Some r => r | None => noFields end.

(** [{ ...r, value: v }] *)
Definition with_value (v : JsValue) (r : FieldDetail) : FieldDetail :=
  {| label := label r; name := name r; value := v;
     rules := rules r; isValid := isValid r; errors := errors r |}.

(** [{ ...r, isValid, errors }] *)
Definition with_result (b : bool) (es : JsErrors)
    (r : FieldDetail) : FieldDetail :=
  {| label := label r; name := name r; value := value r;
     rules := rules r; isValid := Some b; errors := Some es |}.

(** [FieldsAction], lines 38-42, one constructor per [type] tag with the
    payload the reducer reads from [action.value]. *)
Inductive FieldsAction : Type :=
  | addField (n : string) (r : FieldDetail)
  | updateValue (n : string) (v : JsValue)
  | updateValidateResult (n : string) (b : bool) (es : JsErrors).

(** [fieldsReducer], lines 48-72. *)
Definition fieldsReducer (state : gmap string FieldDetail)
    (action : FieldsAction) : gmap string FieldDetail :=
  match action with
  | addField n r => <[n := r]> state
  | updateValue n v => <[n := with_value v (spread (state !! n))]> state
  | updateValidateResult n b es =>
      <[n := with_result b es (spread (state !! n))]> state
  end.

(** The calls a function of the hook or of the Form makes to the outside,
    in program order. *)
Inductive Effect : Type :=
  | Dispatch (a : FieldsAction)
  | SetForm (f : FormState)
  | EngineValidate (descriptor : gmap string (list RuleItem))
      (valueMap : gmap string JsValue)
  | PreventDefault
  | StopPropagation
  | OnFinish (vs : gmap string JsValue)
  | OnFinishFailed (vs : gmap string JsValue)
      (es : gmap string (list ValidateError)).

(** lodash [mapValues] and [each] over a dictionary.  [each] is used on
    [fields], whose properties are records: a [length] of it, if any, is
    not a number, so lodash never takes [fields] for array-like. *)
Definition mapValues {A B} (f : A → B) (m : gmap string A) : gmap string B :=
  f <$> m.

Definition each {A} (m : gmap string A) (cb : A → string → list Effect)
    : list Effect :=
  map_to_list m ≫= λ kv, cb kv.2 kv.1.

(** [mapValues] with a callback that can throw: the first throw escapes. *)
Definition mapValuesC {A B} (f : A → Completion B) (m : gmap string A)
    : Completion (gmap string B) :=
  if decide (map_Forall (λ _ x, is_returned (f x) = true) m)
  then Returned (omap (λ x, match f x with
                            | Returned b => Some b
                            | TypeError => None
                            end) m)
  else TypeError.

(** [getFieldValue], lines 105-107: [fields[key] && fields[key].value]. *)
Definition getFieldValue (fields : gmap string FieldDetail) (key : string)
    : JsValue :=
  match fields !! key with
  | Some r => value r
  | None => JUndefined
  end.

(** [getFieldsValue], lines 113-115. *)
Definition getFieldsValue (fields : gmap string FieldDetail)
    : gmap string JsValue :=
  mapValues value fields.

(** The test [if (obj[name])] on an object whose own properties are
    objects: an own property is truthy, and so is an inherited member. *)
Definition hasProperty {A} (obj : gmap string A) (n : string) : bool :=
  match obj !! n with
  | Some _ => true
  | None => inheritedName n
  end.

(** lodash [isArrayLike] on a dictionary of values: the own [length] is a
    number that is a valid length (an integer from 0 to 2^53 - 1). *)
Definition arrayLikeLength (m : gmap string JsValue) : option nat :=
  match m !! "length" with
  | Some (JNumber z) =>
      if bool_decide (0 ≤ z ≤ 9007199254740991)%Z
      then Some (Z.to_nat z) else None
  | _ => None
  end.

(** What lodash [each] visits on a dictionary of values: an array-like one
    is walked by index from 0 to [length - 1], reading [undefined] where an
    index is missing; any other by its own keys. *)
Definition visited (m : gmap string JsValue) : list (string * JsValue) :=
  match arrayLikeLength m with
  | Some len =>
      (λ i : nat, (pretty i, default JUndefined (m !! pretty i)))
        <$> seq 0 len
  | None => map_to_list m
  end.

Definition eachValue (m : gmap string JsValue)
    (cb : JsValue → string → list Effect) : list Effect :=
  visited m ≫= λ kv, cb kv.2 kv.1.

(** [setFieldValue], lines 122-126. *)
Definition setFieldValue (fields : gmap string FieldDetail) (n : string)
    (v : JsValue) : list Effect :=
  if hasProperty fields n then [Dispatch (updateValue n v)] else [].

(** [resetFields], lines 131-139. *)
Definition resetFields (initialValues : option (gmap string JsValue))
    (fields : gmap string FieldDetail) : list Effect :=
  match initialValues with
  | Some ivs =>
      eachValue ivs (λ v n,
        if hasProperty fields n then [Dispatch (updateValue n v)] else [])
  | None => []
  end.

(** The callback of [rules.map] in [transfromRules]. *)
Definition resolveRule (fields : gmap string FieldDetail) (rule : CustomRule)
    : RuleItem :=
  match rule with
  | Generator f => f (getFieldValue fields)
  | Static r => r
  end.

(** [transfromRules], lines 146-157.  Its argument is the [rules] property
    of a record; [rules.map] on a missing property is a [TypeError]. *)
Definition transfromRules (fields : gmap string FieldDetail)
    (rs : option (list CustomRule)) : Completion (list RuleItem) :=
  match rs with
  | Some l => Returned (resolveRule fields <$> l)
  | None => TypeError
  end.

(** [validateField], lines 163-189. *)
Definition validateField
    (validate : gmap string (list RuleItem) → gmap string JsValue → Settled)
    (fields : gmap string FieldDetail) (n : string)
    : list Effect * Completion unit :=
  match fields !! n with
  | None => ([], TypeError)
  | Some r =>
      match transfromRules fields (rules r) with
      | TypeError => ([], TypeError)
      | Returned afterRules =>
          let descriptor := {[ n := afterRules ]} in
          let valueMap := {[ n := value r ]} in
          let result :=
            match validate descriptor valueMap with
            | Resolved => (true, [])
            | Rejected err => (false, err_errors err)
            end in
          ([EngineValidate descriptor valueMap;
            Dispatch (updateValidateResult n result.1 result.2)],
           Returned tt)
      end
  end.

(** The descriptor of line 202. *)
Definition descriptorOf (fields : gmap string FieldDetail)
    : Completion (gmap string (list RuleItem)) :=
  mapValuesC (λ item, transfromRules fields (rules item)) fields.

(** [errors[name]] on the mapping of the aggregate error: the own entry,
    or the inherited member, or [undefined]. *)
Definition readErrors (errs : gmap string (list ValidateError)) (n : string)
    : option JsErrors :=
  match errs !! n with
  | Some l => Some (ErrorList l)
  | None => if inheritedName n then Some (ErrorsMember n) else None
  end.

(** The callback of [each] in the [catch] block, lines 216-225; what
    [readErrors] finds is truthy.  A record without [rules] cannot reach
    it: line 202 has thrown before. *)
Definition redistribute (errs : gmap string (list ValidateError))
    (item : FieldDetail) (n : string) : list Effect :=
  match readErrors errs n with
  | Some itemErrors => [Dispatch (updateValidateResult n false itemErrors)]
  | None =>
      match rules item with
      | Some (_ :: _) => [Dispatch (updateValidateResult n true [])]
      | _ => []
      end
  end.

(** [validateAllFields], lines 195-235. *)
Definition validateAllFields
    (validate : gmap string (list RuleItem) → gmap string JsValue → Settled)
    (form : FormState) (fields : gmap string FieldDetail)
    : list Effect * Completion AllResult :=
  let valueMap := mapValues value fields in
  match descriptorOf fields with
  | TypeError => ([], TypeError)
  | Returned descriptor =>
      let submitting :=
        {| form_isValid := form_isValid form; isSubmitting := true;
           form_errors := form_errors form |} in
      match validate descriptor valueMap with
      | Resolved =>
          ([SetForm submitting; EngineValidate descriptor valueMap;
            SetForm {| form_isValid := true; isSubmitting := false;
                       form_errors := ∅ |}],
           Returned {| res_isValid := true; res_errors := ∅;
                       values := valueMap |})
      | Rejected err =>
          let errs := err_fields err in
          ([SetForm submitting; EngineValidate descriptor valueMap]
             ++ each fields (redistribute errs)
             ++ [SetForm {| form_isValid := false; isSubmitting := false;
                            form_errors := errs |}],
           Returned {| res_isValid := false; res_errors := errs;
                       values := valueMap |})
      end
  end.

(** [submitForm] of the Form component (form.tsx, lines 73-86).  The two
    optional props are booleans telling whether the callback was given. *)
Definition submitForm (onFinish onFinishFailed : bool)
    (validate : gmap string (list RuleItem) → gmap string JsValue → Settled)
    (form : FormState) (fields : gmap string FieldDetail)
    : list Effect * Completion unit :=
  let run := validateAllFields validate form fields in
  match run.2 with
  | TypeError => ([PreventDefault; StopPropagation] ++ run.1, TypeError)
  | Returned res =>
      ([PreventDefault; StopPropagation] ++ run.1 ++
         (if res_isValid res && onFinish
          then [OnFinish (values res)]
          else if negb (res_isValid res) && onFinishFailed
          then [OnFinishFailed (values res) (res_errors res)]
          else []),
       Returned tt)
  end.

(** *** The React side: what the effects do to the hook's state *)

Record World : Type := mkWorld {
  w_form : FormState;
  w_fields : gmap string FieldDetail }.

Definition applyEffect (w : World) (e : Effect) : World :=
  match e with
  | Dispatch a =>
      {| w_form := w_form w; w_fields := fieldsReducer (w_fields w) a |}
  | SetForm f => {| w_form := f; w_fields := w_fields w |}
  | _ => w
  end.

Definition runEffects (w : World) (es : list Effect) : World :=
  foldl applyEffect w es.

(** The field an action is addressed to. *)
Definition actionName (a : FieldsAction) : string :=
  match a with
  | addField n _ | updateValue n _ | updateValidateResult n _ _ => n
  end.

(** The actions dispatched by a list of effects, in order. *)
Definition dispatched (es : list Effect) : list FieldsAction :=
  omap (λ e, match e with Dispatch a => Some a | _ => None end) es.

(** Every record of the store carries its [rules]: what a store looks like
    when its records come from registrations ([addField] with a
    [FieldDetail]) and from updates of registered names. *)
Definition hasRules (fields : gmap string FieldDetail) : Prop :=
  map_Forall (λ _ r, is_Some (rules r)) fields.

#[global] Instance hasRules_dec fields : Decision (hasRules fields).
Proof. unfold hasRules. apply _. Defined.

(** The resolved rules of a record that has rules. *)
Definition resolvedRules (fields : gmap string FieldDetail)
    (r : FieldDetail) : option (list RuleItem) :=
  match rules r with
  | Some l => Some (resolveRule fields <$> l)
  | None => None
  end.

(** What validation reads of a store: the value and the rules per field. *)
Definition inputsOf (fields : gmap string FieldDetail)
    : gmap string (JsValue * option (list CustomRule)) :=
  (λ r, (value r, rules r)) <$> fields.

(** The form states handed to [setForm] by a list of effects, in order. *)
Definition setForms (es : list Effect) : list FormState :=
  omap (λ e, match e with SetForm f => Some f | _ => None end) es.

(** The callbacks of the Form invoked by a list of effects. *)
Definition isCallback (e : Effect) : bool :=
  match e with
  | OnFinish _ | OnFinishFailed _ _ => true
  | _ => false
  end.

Definition callbacks (es : list Effect) : list Effect :=
  List.filter isCallback es.

(** *** A form in use: calls and their suspension

    The entry points a Form offers: the hook's functions through the ref
    and the context, and the submit event.  JavaScript runs a call without
    interruption up to its [await] of the engine; the rest of the call runs
    later, also without interruption, and other calls may start or resume
    in between.  A call computes all its effects from the [fields] and
    [form] it closed over when it started; the effects after the [await] are
    applied to the state as it is when the call resumes. *)
Inductive Call : Type :=
  | CallDispatch (a : FieldsAction)
  | CallSetFieldValue (n : string) (v : JsValue)
  | CallResetFields
  | CallValidateField (n : string)
  | CallValidateAllFields
  | CallSubmit.

Definition callEffects (initialValues : option (gmap string JsValue))
    (onFinish onFinishFailed : bool)
    (validate : gmap string (list RuleItem) → gmap string JsValue → Settled)
    (w : World) (c : Call) : list Effect :=
  match c with
  | CallDispatch a => [Dispatch a]
  | CallSetFieldValue n v => setFieldValue (w_fields w) n v
  | CallResetFields => resetFields initialValues (w_fields w)
  | CallValidateField n => (validateField validate (w_fields w) n).1
  | CallValidateAllFields =>
      (validateAllFields validate (w_form w) (w_fields w)).1
  | CallSubmit =>
      (submitForm onFinish onFinishFailed validate
         (w_form w) (w_fields w)).1
  end.

(** The aggregate validation runs in these two calls. *)
Definition isAggregate (c : Call) : bool :=
  match c with
  | CallValidateAllFields | CallSubmit => true
  | _ => false
  end.

(** The call of the engine is the point where a call is suspended. *)
Definition isAwait (e : Effect) : bool :=
  match e with
  | EngineValidate _ _ => true
  | _ => false
  end.

(** The effects up to and including the [await], and what is left to do
    after it, if the call is suspended at all. *)
Fixpoint splitAwait (es : list Effect) : list Effect * option (list Effect) :=
  match es with
  | [] => ([], None)
  | e :: es' =>
      if isAwait e then ([e], Some es')
      else (e :: (splitAwait es').1, (splitAwait es').2)
  end.

(** The state of the hook and the suspended calls, each with the effects it
    still has to perform. *)
Record Runtime : Type := mkRuntime {
  rt_world : World;
  rt_pending : list (Call * list Effect) }.

(** What the event loop does next: start a call, or resume the [i]-th
    suspended one. *)
Inductive Tick : Type :=
  | Start (c : Call)
  | Resume (i : nat).

Definition tick (initialValues : option (gmap string JsValue))
    (onFinish onFinishFailed : bool)
    (validate : gmap string (list RuleItem) → gmap string JsValue → Settled)
    (rt : Runtime) (t : Tick) : Runtime :=
  match t with
  | Start c =>
      let es := callEffects initialValues onFinish onFinishFailed validate
                  (rt_world rt) c in
      {| rt_world := runEffects (rt_world rt) (splitAwait es).1;
         rt_pending :=
           match (splitAwait es).2 with
           | Some k => rt_pending rt ++ [(c, k)]
           | None => rt_pending rt
           end |}
  | Resume i =>
      match rt_pending rt !! i with
      | Some p =>
          {| rt_world := runEffects (rt_world rt) p.2;
             rt_pending := delete i (rt_pending rt) |}
      | None => rt
      end
  end.

Definition runTicks (initialValues : option (gmap string JsValue))
    (onFinish onFinishFailed : bool)
    (validate : gmap string (list RuleItem) → gmap string JsValue → Settled)
    (rt : Runtime) (ts : list Tick) : Runtime :=
  foldl (tick initialValues onFinish onFinishFailed validate) rt ts.

(** What a suspended call still has to do to the form state: an aggregate
    validation ends by clearing [isSubmitting], any other call leaves the
    form state alone. *)
Definition pendingOk (p : Call * list Effect) : Prop :=
  if isAggregate p.1
  then ∃ f, last (setForms p.2) = Some f ∧ isSubmitting f = false
  else setForms p.2 = [].

(** The state of a freshly mounted form: [useState] and [useReducer] at
    lines 91-98, and no call under way. *)
Definition initialWorld : World :=
  {| w_form := initialForm; w_fields := ∅ |}.

Definition initialRuntime : Runtime :=
  {| rt_world := initialWorld; rt_pending := [] |}.

(** The dispatches a well-behaved user of the store makes: a registration
    carries its rules (FormItem passes [rules || []]), an update is
    addressed to a registered name. *)
Definition okAction (state : gmap string FieldDetail) (a : FieldsAction)
    : Prop :=
  match a with
  | addField _ r => is_Some (rules r)
  | updateValue n _ | updateValidateResult n _ _ => is_Some (state !! n)
  end.

(** A tick of a well-behaved user: a call that dispatches right away
    (a raw dispatch, [setFieldValue], [resetFields]) only makes such
    dispatches.  The guards of [setFieldValue] and [resetFields] do not
    ensure it: they let the members of [Object.prototype] through. *)
Definition okTick (initialValues : option (gmap string JsValue))
    (rt : Runtime) (t : Tick) : Prop :=
  match t with
  | Start (CallDispatch a) => okAction (w_fields (rt_world rt)) a
  | Start (CallSetFieldValue n v) =>
      Forall (okAction (w_fields (rt_world rt)))
        (dispatched (setFieldValue (w_fields (rt_world rt)) n v))
  | Start CallResetFields =>
      Forall (okAction (w_fields (rt_world rt)))
        (dispatched (resetFields initialValues (w_fields (rt_world rt))))
  | _ => True
  end.

Fixpoint okTicks (initialValues : option (gmap string JsValue))
    (onFinish onFinishFailed : bool)
    (validate : gmap string (list RuleItem) → gmap string JsValue → Settled)
    (rt : Runtime) (ts : list Tick) : Prop :=
  match ts with
  | [] => True
  | t :: ts' =>
      okTick initialValues rt t
      ∧ okTicks initialValues onFinish onFinishFailed validate
          (tick initialValues onFinish onFinishFailed validate rt t) ts'
  end.

(** An aggregate validation is in flight. *)
Definition aggregateInFlight (rt : Runtime) : Prop :=
  ∃ p, p ∈ rt_pending rt ∧ isAggregate p.1 = true.

End Store.

(** ** FormItem: the component that owns one field

    What the FormItem component (formItem) does with the store: the
    registration of its field on mount, the forwarding of input events, and
    what it reads back to render the error state. *)

(** JavaScript truthiness of a value ([||] and [&&] test it). *)
Definition truthy (v : JsValue) : bool :=
  match v with
  | JUndefined | JNull | JBool false | JNumber Z0 | JString "" => false
  | _ => true
  end.

(** [initialValues[name]]: the own entry, or the inherited member, or
    [undefined]. *)
Definition readValue (ivs : gmap string JsValue) (n : string) : JsValue :=
  match ivs !! n with
  | Some v => v
  | None => if inheritedName n then JMember n else JUndefined
  end.

(** [(initialValues && initialValues[name]) || ''], line 67. *)
Definition initialValueOf (initialValues : option (gmap string JsValue))
    (n : string) : JsValue :=
  let v := match initialValues with
           | Some ivs => readValue ivs n
           | None => JUndefined
           end in
  if truthy v then v else JString "".

Section FormItem.
Context {RuleItem : Type}.

(** The record dispatched by the mount effect, lines 69-80; [rules || []]
    turns a missing [rules] prop into the empty list. *)
Definition mountRecord (initialValues : option (gmap string JsValue))
    (lbl : option string) (n : string)
    (rs : option (list (@CustomRule RuleItem))) : FieldDetail :=
  {| label := lbl; name := Some n; value := initialValueOf initialValues n;
     rules := Some (default [] rs); isValid := Some true;
     errors := Some (ErrorList []) |}.

(** The mount effect of a FormItem, lines 66-81. *)
Definition mountField (initialValues : option (gmap string JsValue))
    (lbl : option string) (n : string)
    (rs : option (list (@CustomRule RuleItem))) : list (@Effect RuleItem) :=
  [Dispatch (addField n (mountRecord initialValues lbl n rs))].

(** [onValueUpdate], lines 101-105; [v] is what [getValueFromEvent] made of
    the event. *)
Definition onValueUpdate (n : string) (v : JsValue)
    : list (@Effect RuleItem) :=
  [Dispatch (updateValue n v)].

(** [hasError], line 88: [errors && errors.length > 0] for the [errors] of
    the field's record, read as a condition.  A record can hold a member
    of [Object.prototype] as [errors]; its [length] is then the arity of
    the function, or [undefined]. *)
Definition hasError (fields : gmap string (@FieldDetail RuleItem))
    (n : string) : bool :=
  match fields !! n with
  | Some r => match errors r with
              | Some (ErrorList (_ :: _)) => true
              | Some (ErrorsMember m) =>
                  match memberLength m with
                  | Some (S _) => true
                  | _ => false
                  end
              | _ => false
              end
  | None => false
  end.

(** The text of the explanation line, lines 159-163: [errors[0].message]
    when [hasError], nothing otherwise.  For a member of
    [Object.prototype] with a positive [length], [errors[0]] is
    [undefined] and reading its [message] throws. *)
Definition explain (fields : gmap string (@FieldDetail RuleItem))
    (n : string) : Completion (option string) :=
  match fields !! n with
  | Some r => match errors r with
              | Some (ErrorList (e :: _)) => Returned (Some (message e))
              | Some (ErrorsMember m) =>
                  match memberLength m with
                  | Some (S _) => TypeError
                  | _ => Returned None
                  end
              | _ => Returned None
              end
  | None => Returned None
  end.

(** The record of a field after the redistribution of an aggregate error
    (the effect of the callback [redistribute] on the record [item]). *)
Definition settledRecord (errs : gmap string (list ValidateError))
    (n : string) (item : @FieldDetail RuleItem) : FieldDetail :=
  match readErrors errs n with
  | Some itemErrors => with_result false itemErrors item
  | None =>
      match rules item with
      | Some (_ :: _) => with_result true [] item
      | _ => item
      end
  end.

(** What a single validation writes for the way the engine settled. *)
Definition verdict (s : Settled) : bool * list ValidateError :=
  match s with
  | Resolved => (true, [])
  | Rejected err => (false, err_errors err)
  end.

End FormItem.

(** ** A small validation engine

    An instance of the engine's contract used to run the scenarios: a rule
    is [required] and/or carries a [validator] predicate; a field fails with
    one error per violated rule; the aggregate error lists the failing fields
    only. *)

Record Rule : Type := mkRule {
  required : bool;
  validator : option (JsValue → bool) }.

Definition isEmptyValue (v : JsValue) : bool :=
  match v with
  | JUndefined | JNull | JString "" => true
  | _ => false
  end.

Definition ruleErrors (n : string) (v : JsValue) (r : Rule)
    : list ValidateError :=
  (if required r && isEmptyValue v
   then [mkValidateError (n +:+ " is required") n] else [])
  ++ match validator r with
     | Some p => if p v then [] else [mkValidateError (n +:+ " is invalid") n]
     | None => []
     end.

Definition fieldErrors (valueMap : gmap string JsValue) (n : string)
    (rs : list Rule) : option (list ValidateError) :=
  match rs ≫= ruleErrors n (default JUndefined (valueMap !! n)) with
  | [] => None
  | es => Some es
  end.

Definition simpleValidate (descriptor : gmap string (list Rule))
    (valueMap : gmap string JsValue) : Settled :=
  let fs := map_imap (fieldErrors valueMap) descriptor in
  if decide (fs = ∅) then Resolved
  else Rejected {| err_errors := concat (map_to_list fs).*2;
                   err_fields := fs |}.

(** What FormItem registers on mount (lines 66-81 of formItem). *)
Definition registration {RuleItem} (n : string) (v : JsValue)
    (rs : list (@CustomRule RuleItem)) : FieldDetail :=
  {| label := None; name := Some n; value := v; rules := Some rs;
     isValid := Some true; errors := Some (ErrorList []) |}.

Definition requiredRule : Rule := {| required := true; validator := None |}.

(** *** Stores of the scenarios *)

(** Two required fields, "a" empty and "b" filled. *)
Definition abStore : gmap string (@FieldDetail Rule) :=
  <["a" := registration "a" (JString "") [Static requiredRule]]>
  (<["b" := registration "b" (JString "x") [Static requiredRule]]> ∅).

(** The record an earlier failed pass leaves for a required field. *)
Definition requiredError (n : string) : ValidateError :=
  mkValidateError (n +:+ " is required") n.

(** "a" was found empty by an earlier pass and has been filled in since. *)
Definition staleStore : gmap string (@FieldDetail Rule) :=
  {[ "a" := {| label := None; name := Some "a"; value := JString "x";
               rules := Some [Static requiredRule];
               isValid := Some false;
               errors := Some (ErrorList [requiredError "a"]) |} ]}.

(** "confirm" must equal the current value of "password". *)
Definition sameAsPassword : @CustomRule Rule :=
  Generator (λ getFieldValue,
    {| required := false;
       validator := Some (λ v, bool_decide (v = getFieldValue "password")) |}).

Definition passwordStore : gmap string (@FieldDetail Rule) :=
  <["password" := registration "password" (JString "abc123") []]>
  (<["confirm" := registration "confirm" (JString "xyz") [sameAsPassword]]> ∅).






(** A submission is started, a field edited and validated while the
    engine works, and the submission resumed last. *)
Definition overlappingTicks : list (@Tick Rule) :=
  [Start (CallDispatch
            (addField "a"
               (registration "a" (JString "") [Static requiredRule])));
   Start CallSubmit;
   Start (CallDispatch (updateValue "a" (JString "x")));
   Start (CallValidateField "a");
   Resume 1;
   Resume 0].

(** A field is registered, set through the ref, reset and submitted. *)
Definition guardedTicks : list (@Tick Rule) :=
  [Start (CallDispatch
            (addField "a"
               (registration "a" (JString "") [Static requiredRule])));
   Start (CallSetFieldValue "a" (JString "x"));
   Start CallResetFields;
   Start CallSubmit;
   Resume 0].

(** * Properties *)

Section Reducer.
Context {RuleItem : Type}.
Implicit Types (state : gmap string (@FieldDetail RuleItem)).
Implicit Types (r : @FieldDetail RuleItem) (a : @FieldsAction RuleItem).

Lemma fieldsReducer_lookup_ne state a k :
  actionName a ≠ k → fieldsReducer state a !! k = state !! k.
Proof. destruct a; simpl; intros Hne; by rewrite lookup_insert_ne. Qed.

Lemma fieldsReducer_lookup_eq state a :
  fieldsReducer state a !! actionName a =
    Some match a with
         | addField _ r => r
         | updateValue _ v => with_value v (spread (state !! actionName a))
         | updateValidateResult _ b es =>
             with_result b es (spread (state !! actionName a))
         end.
Proof. destruct a; simpl; by rewrite lookup_insert_eq. Qed.

Lemma fieldsReducer_is_Some state a k :
  is_Some (state !! k) → is_Some (fieldsReducer state a !! k).
Proof.
  intros Hk. destruct (decide (actionName a = k)) as [<-|Hne].
  - rewrite fieldsReducer_lookup_eq. eauto.
  - by rewrite fieldsReducer_lookup_ne.
Qed.

Lemma elem_of_each {A} (m : gmap string A)
    (cb : A → string → list (@Effect RuleItem)) e :
  e ∈ each m cb ↔ ∃ k x, m !! k = Some x ∧ e ∈ cb x k.
Proof.
  unfold each. rewrite list_elem_of_bind. split.
  - intros [[k x] [He Hin]]. apply elem_of_map_to_list in Hin. eauto.
  - intros (k & x & Hk & He). exists (k, x).
    split; [done|]. by apply elem_of_map_to_list.
Qed.

Lemma visited_NoDup (m : gmap string JsValue) : NoDup (visited m).*1.
Proof.
  unfold visited. destruct (arrayLikeLength m) as [len|].
  - rewrite <- list_fmap_compose.
    apply (NoDup_fmap_2 (λ i : nat, pretty i)), NoDup_seq.
  - apply NoDup_fst_map_to_list.
Qed.



Lemma resetFields_elem ivs state (e : @Effect RuleItem) :
  e ∈ resetFields (Some ivs) state →
  ∃ n v, e = Dispatch (updateValue n v)
         ∧ (n, v) ∈ visited ivs ∧ hasProperty state n = true.
Proof.
  unfold resetFields, eachValue.
  intros ([k x] & He & Hin)%list_elem_of_bind. simpl in He.
  destruct (hasProperty state k) eqn:Hs; [|by apply not_elem_of_nil in He].
  apply list_elem_of_singleton in He as ->. eauto.
Qed.

(** C8.  For a registered name [n], [updateValue] yields a snapshot in
    which only the [value] of [n] differs and [updateValidateResult] one in
    which only [isValid] and [errors] of [n] differ; [addField] stores a
    copy of its payload under [n]; every other record is left as it was.
    The reducer only builds new object literals, so it is a function from
    the old snapshot to the new one and [state] itself is what the
    right-hand sides still read after the transition. *)
Theorem fieldsReducer_frame state n r v b es r' :
  state !! n = Some r →
  (∃ r1, fieldsReducer state (updateValue n v) !! n = Some r1
         ∧ value r1 = v ∧ rules r1 = rules r ∧ errors r1 = errors r
         ∧ isValid r1 = isValid r ∧ name r1 = name r ∧ label r1 = label r)
  ∧ (∀ m, m ≠ n → fieldsReducer state (updateValue n v) !! m = state !! m)
  ∧ (∃ r2, fieldsReducer state (updateValidateResult n b es) !! n = Some r2
         ∧ isValid r2 = Some b ∧ errors r2 = Some es
         ∧ value r2 = value r ∧ rules r2 = rules r
         ∧ name r2 = name r ∧ label r2 = label r)
  ∧ (∀ m, m ≠ n →
       fieldsReducer state (updateValidateResult n b es) !! m = state !! m)
  ∧ fieldsReducer state (addField n r') !! n = Some r'
  ∧ (∀ m, m ≠ n → fieldsReducer state (addField n r') !! m = state !! m).
Proof.
  intros Hn. repeat split.
  - exists (with_value v r). simpl. by rewrite lookup_insert_eq, Hn.
  - intros m Hm. by apply fieldsReducer_lookup_ne.
  - exists (with_result b es r). simpl. by rewrite lookup_insert_eq, Hn.
  - intros m Hm. by apply fieldsReducer_lookup_ne.
  - simpl. by rewrite lookup_insert_eq.
  - intros m Hm. by apply fieldsReducer_lookup_ne.
Qed.

(** C2, as the code has it.  For a name [n] that is not registered the
    reducer is not a no-op: [updateValue] stores under [n] a new record
    holding only the value, [updateValidateResult] one holding only
    [isValid] and [errors], and every other record is kept. *)
Theorem unknown_field_transition state n v b es :
  state !! n = None →
  fieldsReducer state (updateValue n v) !! n =
    Some {| label := None; name := None; value := v;
            rules := None; isValid := None; errors := None |}
  ∧ fieldsReducer state (updateValidateResult n b es) !! n =
      Some {| label := None; name := None; value := JUndefined;
              rules := None; isValid := Some b; errors := Some es |}
  ∧ (∀ m, m ≠ n →
       fieldsReducer state (updateValue n v) !! m = state !! m
       ∧ fieldsReducer state (updateValidateResult n b es) !! m
           = state !! m).
Proof.
  intros Hn. repeat split.
  - simpl. by rewrite lookup_insert_eq, Hn.
  - simpl. by rewrite lookup_insert_eq, Hn.
  - by apply fieldsReducer_lookup_ne.
  - by apply fieldsReducer_lookup_ne.
Qed.

End Reducer.

Section Effects.
Context {RuleItem : Type}.
Implicit Types (fields state : gmap string (@FieldDetail RuleItem)).
Implicit Types (w : @World RuleItem) (es : list (@Effect RuleItem)).

Lemma dispatched_app es1 es2 :
  dispatched (es1 ++ es2) = dispatched es1 ++ dispatched es2.
Proof. apply omap_app. Qed.

Lemma elem_of_dispatched es a : a ∈ dispatched es ↔ Dispatch a ∈ es.
Proof.
  unfold dispatched. rewrite list_elem_of_omap. split.
  - intros (e & He & Ha). destruct e; simplify_eq. done.
  - intros Ha. by exists (Dispatch a).
Qed.

Lemma runEffects_fields w es :
  w_fields (runEffects w es) = foldl fieldsReducer (w_fields w) (dispatched es).
Proof.
  unfold runEffects. revert w.
  induction es as [|e es IH]; intros w; [done|].
  simpl. rewrite IH. by destruct e.
Qed.

Lemma runEffects_app w es1 es2 :
  runEffects w (es1 ++ es2) = runEffects (runEffects w es1) es2.
Proof. apply foldl_app. Qed.

(** Replaying guarded [updateValue]s addressed to distinct names. *)
Lemma foldl_updates (g : string → bool) (l : list (string * JsValue)) :
  ∀ state, NoDup l.*1 →
    ∀ k, foldl fieldsReducer state
           (dispatched (l ≫= λ kv,
              if g kv.1 then [Dispatch (updateValue kv.1 kv.2)] else []))
           !! k
         = match (list_to_map l : gmap string JsValue) !! k with
           | Some v =>
               if g k then Some (with_value v (spread (state !! k)))
               else state !! k
           | None => state !! k
           end.
Proof.
  induction l as [|[n v] l IH]; intros state Hnd k; [done|].
  rewrite fmap_cons in Hnd. apply NoDup_cons in Hnd as [Hn Hnd].
  assert ((list_to_map l : gmap string JsValue) !! n = None) as Hl
    by by apply not_elem_of_list_to_map_1.
  rewrite bind_cons, dispatched_app, foldl_app. simpl.
  destruct (g n) eqn:Hg; simpl; rewrite IH by done.
  - destruct (decide (n = k)) as [<-|Hne].
    + by rewrite Hl, !lookup_insert_eq, Hg.
    + by rewrite !lookup_insert_ne.
  - destruct (decide (n = k)) as [<-|Hne].
    + by rewrite Hl, lookup_insert_eq, Hg.
    + by rewrite lookup_insert_ne.
Qed.

(** The store after [resetFields], name by name, in terms of what [each]
    visits. *)
Lemma resetFields_visited_lookup ivs w k :
  w_fields (runEffects w (resetFields (Some ivs) (w_fields w))) !! k
  = match (list_to_map (visited ivs) : gmap string JsValue) !! k with
    | Some v =>
        if hasProperty (w_fields w) k
        then Some (with_value v (spread (w_fields w !! k)))
        else w_fields w !! k
    | None => w_fields w !! k
    end.
Proof.
  rewrite runEffects_fields. unfold resetFields, eachValue.
  apply (foldl_updates (hasProperty (w_fields w))), visited_NoDup.
Qed.

Lemma visited_plain_map (ivs : gmap string JsValue) :
  arrayLikeLength ivs = None → list_to_map (visited ivs) = ivs.
Proof. unfold visited. intros ->. apply list_to_map_to_list. Qed.


End Effects.

Section Validation.
Context {RuleItem : Type}.
Implicit Types (fields state : gmap string (@FieldDetail RuleItem)).
Implicit Types (w : @World RuleItem) (effs : list (@Effect RuleItem)).
Implicit Types
  (validate : gmap string (list RuleItem) → gmap string JsValue → Settled).

Lemma descriptorOf_hasRules fields :
  hasRules fields →
  descriptorOf fields =
    Returned (omap (resolvedRules fields) fields).
Proof.
  intros Hall. unfold descriptorOf, mapValuesC. rewrite decide_True.
  - f_equal. apply map_eq. intros i. rewrite !lookup_omap.
    destruct (fields !! i) as [r|]; [|done]. simpl.
    unfold resolvedRules. by destruct (rules r).
  - intros n r Hr. destruct (Hall n r Hr) as [rs Hrs]. simpl.
    by rewrite Hrs.
Qed.

Lemma descriptorOf_Returned_inv fields d :
  descriptorOf fields = Returned d → hasRules fields.
Proof.
  unfold descriptorOf, mapValuesC. case_decide as Hall; [|done].
  intros _ n r Hr. specialize (Hall n r Hr). simpl in Hall.
  destruct (rules r); [eauto|discriminate].
Qed.

Lemma descriptorOf_TypeError fields :
  ¬ hasRules fields → descriptorOf fields = TypeError.
Proof.
  intros Hno. destruct (descriptorOf fields) eqn:Hd; [|done].
  by apply descriptorOf_Returned_inv in Hd.
Qed.

Lemma descriptorOf_lookup fields d n :
  descriptorOf fields = Returned d →
  d !! n = fields !! n ≫= resolvedRules fields.
Proof.
  intros Hd. pose proof (descriptorOf_Returned_inv _ _ Hd) as Hall.
  rewrite (descriptorOf_hasRules _ Hall) in Hd. injection Hd as <-.
  by rewrite lookup_omap.
Qed.

Lemma redistribute_elem (errs : gmap string (list ValidateError))
    (x : @FieldDetail RuleItem) k e :
  e ∈ redistribute errs x k →
  ∃ b es, e = Dispatch (updateValidateResult k b es).
Proof.
  unfold redistribute.
  destruct (readErrors errs k); [|destruct (rules x) as [[|]|]];
    intros He; try (by apply not_elem_of_nil in He);
    apply list_elem_of_singleton in He as ->; eauto.
Qed.

Lemma all_dispatch effs :
  Forall (λ e, ∃ a, e = Dispatch a) effs →
  effs = Dispatch <$> dispatched effs.
Proof.
  induction 1 as [|e effs [a ->] _ IH]; [done|].
  simpl. f_equal. exact IH.
Qed.

Lemma dispatched_fmap (l : list (@FieldsAction RuleItem)) :
  dispatched (Dispatch <$> l) = l.
Proof. induction l as [|a l IH]; [done|]. simpl. f_equal. exact IH. Qed.

(** What the redistribution of an aggregate error dispatches. *)
Lemma redistribute_dispatches fields (errs : gmap string (list ValidateError)) :
  ∃ ds, each fields (redistribute errs) = Dispatch <$> ds
        ∧ Forall (λ a, ∃ n b es,
                    a = updateValidateResult n b es
                    ∧ is_Some (fields !! n)) ds
        ∧ ∀ a, a ∈ ds ↔
               ∃ x, fields !! actionName a = Some x
                    ∧ Dispatch a ∈ redistribute errs x (actionName a).
Proof.
  exists (dispatched (each fields (redistribute errs))).
  assert (∀ e, e ∈ each fields (redistribute errs) →
               ∃ n b es, e = Dispatch (updateValidateResult n b es)
                         ∧ is_Some (fields !! n)) as Hall.
  { intros e (k & x & Hk & He)%elem_of_each.
    apply redistribute_elem in He as (b & es & ->).
    exists k, b, es. rewrite Hk. eauto. }
  split; [|split].
  - apply all_dispatch, Forall_forall. intros e He.
    destruct (Hall e He) as (n & b & es' & -> & _). eauto.
  - apply Forall_forall. intros a Ha%elem_of_dispatched.
    destruct (Hall _ Ha) as (n & b & es' & [= ->] & Hn). eauto.
  - intros a. rewrite elem_of_dispatched, elem_of_each. split.
    + intros (k & x & Hk & He).
      destruct (redistribute_elem _ _ _ _ He) as (b & es' & [= ->]).
      simpl. eauto.
    + intros (x & Hx & He). eauto.
Qed.

(** The course of every call of [validateAllFields] on a store whose
    records carry rules. *)
Lemma validateAllFields_shape validate form fields :
  hasRules fields →
  ∃ d ds res,
    descriptorOf fields = Returned d
    ∧ validateAllFields validate form fields =
        (SetForm {| form_isValid := form_isValid form; isSubmitting := true;
                    form_errors := form_errors form |}
           :: EngineValidate d (mapValues value fields)
           :: (Dispatch <$> ds)
           ++ [SetForm {| form_isValid := res_isValid res;
                          isSubmitting := false;
                          form_errors := res_errors res |}],
         Returned res)
    ∧ values res = mapValues value fields
    ∧ Forall (λ a, ∃ n b es,
                a = updateValidateResult n b es ∧ is_Some (fields !! n)) ds
    ∧ (validate d (mapValues value fields) = Resolved →
         ds = [] ∧ res_isValid res = true ∧ res_errors res = ∅)
    ∧ (∀ err, validate d (mapValues value fields) = Rejected err →
         res_isValid res = false ∧ res_errors res = err_fields err
         ∧ ∀ a, a ∈ ds ↔
                ∃ x, fields !! actionName a = Some x
                     ∧ Dispatch a
                         ∈ redistribute (err_fields err) x (actionName a)).
Proof.
  intros Hall. pose proof (descriptorOf_hasRules _ Hall) as Hd.
  eexists. unfold validateAllFields. rewrite Hd.
  destruct (validate _ _) as [|err] eqn:Hv.
  - exists [], {| res_isValid := true; res_errors := ∅;
                  values := mapValues value fields |}.
    split; [done|]. split; [done|]. split; [done|]. split; [done|].
    split; [done|]. intros err' Herr. congruence.
  - destruct (redistribute_dispatches fields (err_fields err))
      as (ds & Hds & Hshape & Hin).
    exists ds, {| res_isValid := false; res_errors := err_fields err;
                  values := mapValues value fields |}.
    rewrite Hds.
    split; [done|]. split; [done|]. split; [done|]. split; [done|].
    split; [intros Hr; congruence|].
    intros err' Herr. rewrite Hv in Herr. injection Herr as <-. done.
Qed.

(** C4.  For a registered field, [validateField] returns to its caller
    (no error escapes) after one call of the engine and exactly one
    dispatch: [updateValidateResult(isValid=true, errors=[])] when the
    engine resolves, [updateValidateResult(isValid=false, errors)] with the
    error list of the rejection when it rejects. *)
Theorem validateField_never_throws validate fields n r rs :
  fields !! n = Some r → rules r = Some rs →
  ∃ b es,
    validateField validate fields n =
      ([EngineValidate {[ n := resolveRule fields <$> rs ]}
                       {[ n := value r ]};
        Dispatch (updateValidateResult n b es)], Returned tt)
    ∧ dispatched (validateField validate fields n).1
        = [updateValidateResult n b es]
    ∧ (validate {[ n := resolveRule fields <$> rs ]} {[ n := value r ]}
         = Resolved → b = true ∧ es = [])
    ∧ (∀ err,
         validate {[ n := resolveRule fields <$> rs ]} {[ n := value r ]}
           = Rejected err → b = false ∧ es = err_errors err).
Proof.
  intros Hn Hrs. unfold validateField. rewrite Hn, Hrs. simpl.
  destruct (validate _ _) as [|err]; simpl.
  - exists true, []. repeat split; done.
  - exists false, (err_errors err).
    split; [done|]. split; [done|]. split; [done|].
    by intros err' [= <-].
Qed.


(** What a call whose engine call resolves does: nothing is dispatched. *)
Lemma validateAllFields_resolved validate form fields d :
  descriptorOf fields = Returned d →
  validate d (mapValues value fields) = Resolved →
  validateAllFields validate form fields =
    ([SetForm {| form_isValid := form_isValid form; isSubmitting := true;
                 form_errors := form_errors form |};
      EngineValidate d (mapValues value fields);
      SetForm {| form_isValid := true; isSubmitting := false;
                 form_errors := ∅ |}],
     Returned {| res_isValid := true; res_errors := ∅;
                 values := mapValues value fields |})
  ∧ dispatched (validateAllFields validate form fields).1 = [].
Proof.
  intros Hd Hv. unfold validateAllFields. by rewrite Hd, Hv.
Qed.


Lemma setForms_app effs1 effs2 :
  setForms (effs1 ++ effs2) = setForms effs1 ++ setForms effs2.
Proof. apply omap_app. Qed.

Lemma setForms_dispatch (l : list (@FieldsAction RuleItem)) :
  setForms (Dispatch <$> l) = [].
Proof. induction l as [|a l IH]; [done|]. exact IH. Qed.

Lemma callbacks_dispatch (l : list (@FieldsAction RuleItem)) :
  callbacks (Dispatch <$> l) = [].
Proof. induction l as [|a l IH]; [done|]. exact IH. Qed.

(** The form state after a list of effects is the one of the last
    [setForm], if there was any. *)
Lemma runEffects_form w effs :
  w_form (runEffects w effs) = default (w_form w) (last (setForms effs)).
Proof.
  induction effs as [|e effs IH] using rev_ind; [done|].
  rewrite runEffects_app, setForms_app. simpl.
  destruct e; simpl; rewrite ?app_nil_r, ?last_snoc; try done.
Qed.

Lemma splitAwait_no_await effs :
  Forall (λ e, isAwait e = false) effs → splitAwait effs = (effs, None).
Proof.
  induction 1 as [|e effs He _ IH]; [done|].
  simpl. by rewrite He, IH.
Qed.

Lemma splitAwait_dispatch (l : list (@FieldsAction RuleItem)) :
  splitAwait (Dispatch <$> l) = (Dispatch <$> l, None).
Proof.
  apply splitAwait_no_await, Forall_forall.
  by intros e (a & -> & _)%list_elem_of_fmap.
Qed.

Lemma callEffects_split ivs onFinish onFinishFailed validate w c :
  setForms (splitAwait (callEffects ivs onFinish onFinishFailed validate
                          w c)).1 = []
  ∧ (∀ k, (splitAwait (callEffects ivs onFinish onFinishFailed validate
                         w c)).2 = Some k → pendingOk (c, k))
  ∨ isAggregate c = true
    ∧ ∃ k, (splitAwait (callEffects ivs onFinish onFinishFailed validate
                          w c)).2 = Some k ∧ pendingOk (c, k).
Proof.
  destruct c as [a|n v| |n| |]; simpl.
  - left. by split.
  - left. unfold setFieldValue. by destruct (hasProperty (w_fields w) n).
  - left. destruct ivs as [ivs|]; [|by split].
    assert (Forall (λ e, ∃ a, e = Dispatch a)
              (resetFields (Some ivs) (w_fields w))) as Hd.
    { apply Forall_forall. intros e He.
      apply resetFields_elem in He as (n & v & -> & _). eauto. }
    rewrite (all_dispatch _ Hd), splitAwait_dispatch. simpl.
    by rewrite setForms_dispatch.
  - left. unfold validateField. destruct (w_fields w !! n) as [r|]; [|by split].
    destruct (transfromRules _ _); [|by split]. simpl. split; [done|].
    by intros k [= <-].
  - destruct (decide (hasRules (w_fields w))) as [Hr|Hr].
    + right. split; [done|].
      destruct (validateAllFields_shape validate (w_form w) (w_fields w) Hr)
        as (d & ds & res & _ & -> & _).
      simpl. eexists. split; [done|]. unfold pendingOk. simpl.
      eexists. rewrite setForms_app, setForms_dispatch. simpl. by split.
    + left. unfold validateAllFields.
      by rewrite (descriptorOf_TypeError _ Hr).
  - unfold submitForm. destruct (decide (hasRules (w_fields w))) as [Hr|Hr].
    + right. split; [done|].
      destruct (validateAllFields_shape validate (w_form w) (w_fields w) Hr)
        as (d & ds & res & _ & -> & _).
      simpl. eexists. split; [done|]. unfold pendingOk. simpl.
      assert (setForms
                (if res_isValid res && onFinish
                 then [OnFinish (RuleItem:=RuleItem) (values res)]
                 else if negb (res_isValid res) && onFinishFailed
                 then [OnFinishFailed (values res) (res_errors res)]
                 else []) = []) as Hcb
        by (by destruct (res_isValid res), onFinish, onFinishFailed).
      eexists. rewrite !setForms_app, setForms_dispatch, Hcb. simpl.
      by split.
    + left. unfold validateAllFields.
      by rewrite (descriptorOf_TypeError _ Hr).
Qed.

(** In every state the event loop can reach, a set [isSubmitting] comes
    with an aggregate validation in flight. *)
Lemma runTicks_submitting ivs onFinish onFinishFailed validate ts :
  (isSubmitting (w_form (rt_world (runTicks ivs onFinish onFinishFailed
                                     validate initialRuntime ts))) = true →
   aggregateInFlight (runTicks ivs onFinish onFinishFailed validate
                        initialRuntime ts))
  ∧ Forall pendingOk (rt_pending (runTicks ivs onFinish onFinishFailed
                                    validate initialRuntime ts)).
Proof.
  induction ts as [|t ts IH] using rev_ind; [by split|].
  unfold runTicks in *. rewrite foldl_app. simpl.
  set (rt := foldl _ _ ts) in *. destruct IH as [Hfl Hok].
  destruct t as [c|i]; simpl.
  - rewrite runEffects_form.
    destruct (callEffects_split ivs onFinish onFinishFailed validate
                (rt_world rt) c) as [[Hnone Hk]|[Hagg (k & Hk & Hpk)]].
    + rewrite Hnone. simpl. split.
      * intros Hs. destruct (Hfl Hs) as (p & Hp & Hpa). exists p.
        split; [|done]. destruct (splitAwait _).2; [|done].
        apply elem_of_app. by left.
      * destruct (splitAwait _).2 as [k|] eqn:Hsplit; [|done].
        apply Forall_app. split; [done|]. apply Forall_singleton. by apply Hk.
    + rewrite Hk. split.
      * intros _. exists (c, k). split; [|done].
        apply elem_of_app. right. apply list_elem_of_here.
      * apply Forall_app. split; [done|]. by apply Forall_singleton.
  - destruct (rt_pending rt !! i) as [[c k]|] eqn:Hi; [|by split]. simpl.
    split; [|by apply Forall_delete].
    rewrite runEffects_form.
    pose proof (proj1 (Forall_lookup _ _) Hok i (c, k) Hi) as Hck.
    unfold pendingOk in Hck. simpl in Hck.
    destruct (isAggregate c) eqn:Hc.
    + destruct Hck as (f & -> & Hf). simpl. congruence.
    + rewrite Hck. simpl. intros Hs. destruct (Hfl Hs) as (p & Hp & Hpa).
      exists p. split; [|done].
      rewrite (delete_Permutation _ _ _ Hi) in Hp.
      apply elem_of_cons in Hp as [->|Hp]; [|done].
      simpl in Hpa. congruence.
Qed.

Lemma fieldsReducer_okAction state (a : @FieldsAction RuleItem) :
  hasRules state → okAction state a → hasRules (fieldsReducer state a).
Proof.
  intros Hs Ha n r Hn. destruct (decide (actionName a = n)) as [<-|Hne].
  - rewrite fieldsReducer_lookup_eq in Hn. injection Hn as <-.
    destruct a as [n r|n v|n b ers]; simpl in *; [done| |];
      destruct Ha as [r0 Hr0]; rewrite Hr0; exact (Hs _ _ Hr0).
  - rewrite fieldsReducer_lookup_ne in Hn by done. exact (Hs _ _ Hn).
Qed.

Lemma okAction_mono state state' (a : @FieldsAction RuleItem) :
  (∀ n, is_Some (state !! n) → is_Some (state' !! n)) →
  okAction state a → okAction state' a.
Proof. intros Hmono. destruct a; simpl; auto. Qed.

Lemma foldl_okAction (ds : list (@FieldsAction RuleItem)) :
  ∀ state, hasRules state → Forall (okAction state) ds →
    hasRules (foldl fieldsReducer state ds)
    ∧ ∀ n, is_Some (state !! n) → is_Some (foldl fieldsReducer state ds !! n).
Proof.
  induction ds as [|a ds IH]; intros state Hs Hds; [done|].
  apply Forall_cons in Hds as [Ha Hds]. simpl.
  pose proof (fieldsReducer_is_Some state a) as Hmono.
  destruct (IH (fieldsReducer state a)) as [Hr Hdom].
  - by apply fieldsReducer_okAction.
  - eapply Forall_impl; [exact Hds|]. intros a'. by apply okAction_mono.
  - split; [done|]. intros n Hn. by apply Hdom, Hmono.
Qed.

Lemma splitAwait_eq effs :
  effs = (splitAwait effs).1 ++ default [] (splitAwait effs).2.
Proof.
  induction effs as [|e effs IH]; [done|]. simpl.
  destruct (isAwait e); simpl; [done|]. by rewrite <- IH.
Qed.

(** Started on a store whose records carry rules, a call only makes
    dispatches of a well-behaved user. *)
Lemma callEffects_okAction ivs onFinish onFinishFailed validate w c :
  hasRules (w_fields w) →
  okTick ivs {| rt_world := w; rt_pending := [] |} (Start c) →
  Forall (okAction (w_fields w))
    (dispatched (callEffects ivs onFinish onFinishFailed validate w c)).
Proof.
  intros Hr Hc.
  assert (∀ ds : list (@FieldsAction RuleItem),
            Forall (λ a, ∃ n b ers, a = updateValidateResult n b ers
                                    ∧ is_Some (w_fields w !! n)) ds →
            Forall (okAction (w_fields w)) ds) as Hres.
  { intros ds Hds. eapply Forall_impl; [exact Hds|].
    by intros a (n & b & ers & -> & Hn). }
  destruct c as [a|n v| |n| |]; simpl.
  - by apply Forall_singleton.
  - exact Hc.
  - exact Hc.
  - unfold validateField. destruct (w_fields w !! n) eqn:Hn; [|done].
    destruct (transfromRules _ _); [|done]. simpl.
    apply Forall_singleton. simpl. by rewrite Hn.
  - destruct (validateAllFields_shape validate (w_form w) (w_fields w) Hr)
      as (d & ds & res & _ & -> & _ & Hds & _).
    simpl. rewrite dispatched_app, dispatched_fmap. simpl.
    rewrite app_nil_r. by apply Hres.
  - unfold submitForm.
    destruct (validateAllFields_shape validate (w_form w) (w_fields w) Hr)
      as (d & ds & res & _ & -> & _ & Hds & _).
    simpl. rewrite !dispatched_app, dispatched_fmap. simpl.
    assert (dispatched
              (if res_isValid res && onFinish
               then [OnFinish (RuleItem:=RuleItem) (values res)]
               else if negb (res_isValid res) && onFinishFailed
               then [OnFinishFailed (values res) (res_errors res)]
               else []) = []) as ->
      by (by destruct (res_isValid res), onFinish, onFinishFailed).
    rewrite !app_nil_r. by apply Hres.
Qed.

(** The records of the store carry rules in every state that well-behaved
    users of the form can reach. *)
Lemma runTicks_hasRules ivs onFinish onFinishFailed validate ts :
  ∀ rt,
    hasRules (w_fields (rt_world rt)) →
    Forall (λ p, Forall (okAction (w_fields (rt_world rt))) (dispatched p.2))
      (rt_pending rt) →
    okTicks ivs onFinish onFinishFailed validate rt ts →
    hasRules (w_fields (rt_world
                (runTicks ivs onFinish onFinishFailed validate rt ts))).
Proof.
  induction ts as [|t ts IH]; intros rt Hr Hp Hts; [done|].
  destruct Hts as [Ht Hts]. simpl. apply IH; [| |done]; clear IH Hts.
  - destruct t as [c|i]; simpl.
    + rewrite runEffects_fields. apply foldl_okAction; [done|].
      pose proof (callEffects_okAction ivs onFinish onFinishFailed validate
                    (rt_world rt) c Hr) as Hall.
      rewrite (splitAwait_eq (callEffects _ _ _ _ _ _)),
        dispatched_app in Hall.
      apply Forall_app in Hall as [Hall _]; [done|]. by destruct c.
    + destruct (rt_pending rt !! i) as [p|] eqn:Hi; [|done]. simpl.
      rewrite runEffects_fields. apply foldl_okAction; [done|].
      exact (proj1 (Forall_lookup _ _) Hp i p Hi).
  - assert (∀ effs, Forall (okAction (w_fields (rt_world rt)))
                      (dispatched effs) →
              ∀ n, is_Some (w_fields (rt_world rt) !! n) →
                   is_Some (w_fields (runEffects (rt_world rt) effs) !! n))
      as Hmono.
    { intros effs Heffs. rewrite runEffects_fields.
      by apply foldl_okAction. }
    destruct t as [c|i]; simpl.
    + pose proof (callEffects_okAction ivs onFinish onFinishFailed validate
                    (rt_world rt) c Hr) as Hall.
      rewrite (splitAwait_eq (callEffects _ _ _ _ _ _)),
        dispatched_app in Hall.
      apply Forall_app in Hall as [Hb Hk]; [|by destruct c].
      assert (Forall
                (λ p, Forall
                        (okAction
                           (w_fields (runEffects (rt_world rt)
                              (splitAwait (callEffects ivs onFinish
                                 onFinishFailed validate (rt_world rt) c)).1)))
                        (dispatched p.2)) (rt_pending rt)) as Hold.
      { eapply Forall_impl; [exact Hp|]. intros p Hpd.
        eapply Forall_impl; [exact Hpd|].
        intros a. apply okAction_mono. by apply Hmono. }
      destruct (splitAwait _).2 as [k|]; [|done].
      apply Forall_app. split; [done|]. apply Forall_singleton. simpl.
      eapply Forall_impl; [exact Hk|].
      intros a. apply okAction_mono. by apply Hmono.
    + destruct (rt_pending rt !! i) as [p|] eqn:Hi; [|done]. simpl.
      apply Forall_delete. eapply Forall_impl; [exact Hp|].
      intros q Hq. eapply Forall_impl; [exact Hq|].
      intros a. apply okAction_mono.
      apply Hmono. exact (proj1 (Forall_lookup _ _) Hp i p Hi).
Qed.

Lemma initialRuntime_hasRules ivs onFinish onFinishFailed validate ts :
  okTicks ivs onFinish onFinishFailed validate initialRuntime ts →
  hasRules (w_fields (rt_world
              (runTicks ivs onFinish onFinishFailed validate
                 initialRuntime ts))).
Proof.
  apply runTicks_hasRules; [|by constructor].
  apply map_Forall_empty.
Qed.

(** C5.  On a store whose records carry rules, a call of
    [validateAllFields] first sets [isSubmitting=true], then invokes the
    engine, then dispatches the per-field results, and last sets
    [isSubmitting=false] and returns [{isValid, errors, values}], whether
    the engine resolved or rejected.  Started with [isSubmitting=false] and
    run on its own, the flag is true exactly strictly between the first and
    the last effect of the call.  And however calls are started, suspended
    at the engine and resumed, [isSubmitting] is true only while an
    aggregate validation is in flight. *)
Theorem validateAllFields_isSubmitting validate form fields w :
  hasRules fields →
  isSubmitting (w_form w) = false →
  ∃ d ds res,
    validateAllFields validate form fields =
      (SetForm {| form_isValid := form_isValid form; isSubmitting := true;
                  form_errors := form_errors form |}
         :: EngineValidate d (mapValues value fields)
         :: (Dispatch <$> ds)
         ++ [SetForm {| form_isValid := res_isValid res;
                        isSubmitting := false;
                        form_errors := res_errors res |}],
       Returned res)
    ∧ values res = mapValues value fields
    ∧ (∀ p q,
         (validateAllFields validate form fields).1 = p ++ q →
         (isSubmitting (w_form (runEffects w p)) = true ↔ p ≠ [] ∧ q ≠ []))
    ∧ (∀ ivs onFinish onFinishFailed ts,
         isSubmitting
           (w_form (rt_world (runTicks ivs onFinish onFinishFailed validate
                                initialRuntime ts))) = true →
         aggregateInFlight (runTicks ivs onFinish onFinishFailed validate
                              initialRuntime ts)).
Proof.
  intros Hall Hw.
  destruct (validateAllFields_shape validate form fields Hall)
    as (d & ds & res & _ & Hrun & Hvals & _).
  exists d, ds, res. split; [done|]. split; [done|]. split.
  - rewrite Hrun. simpl. intros p q Hpq. rewrite runEffects_form.
    destruct p as [|e p].
    { simpl. rewrite Hw. split; [done|]. by intros [? _]. }
    destruct q as [|x q _] using rev_ind.
    { rewrite app_nil_r in Hpq. rewrite <- Hpq.
      rewrite !app_comm_cons, setForms_app. simpl.
      rewrite setForms_dispatch. simpl.
      split; [done|]. by intros [_ ?]. }
    simpl in Hpq. injection Hpq as <- Hpq.
    rewrite app_comm_cons, app_assoc in Hpq.
    apply app_inj_tail in Hpq as [Hpq _].
    apply (f_equal setForms) in Hpq.
    rewrite setForms_app in Hpq. simpl in Hpq.
    rewrite setForms_dispatch in Hpq.
    symmetry in Hpq. apply app_eq_nil in Hpq as [Hp _].
    simpl. rewrite Hp. simpl. split; [|done]. intros _. split; [done|].
    by destruct q.
  - intros ivs onFinish onFinishFailed ts.
    apply runTicks_submitting.
Qed.

Lemma callbacks_app effs1 effs2 :
  callbacks (effs1 ++ effs2) = callbacks effs1 ++ callbacks effs2.
Proof. apply List.filter_app. Qed.

(** C9.  On a store whose records carry rules, [submitForm] suppresses the
    default behaviour and the propagation of the event, then runs
    [validateAllFields] to its end (which invokes no callback), and then
    invokes the success callback with [values] when [isValid] is true and
    the callback was given, the failure callback with [values] and
    [errors] when [isValid] is false and the callback was given.  With both
    callbacks registered exactly one of them is invoked. *)
Theorem submitForm_callbacks onFinish onFinishFailed validate form fields :
  hasRules fields →
  ∃ effs res,
    validateAllFields validate form fields = (effs, Returned res)
    ∧ callbacks effs = []
    ∧ submitForm onFinish onFinishFailed validate form fields =
        (PreventDefault :: StopPropagation :: effs
           ++ (if res_isValid res
               then if onFinish then [OnFinish (values res)] else []
               else if onFinishFailed
                    then [OnFinishFailed (values res) (res_errors res)]
                    else []),
         Returned tt)
    ∧ (onFinish = true → onFinishFailed = true →
         callbacks (submitForm onFinish onFinishFailed validate
                      form fields).1
         = [if res_isValid res then OnFinish (values res)
            else OnFinishFailed (values res) (res_errors res)]).
Proof.
  intros Hall.
  destruct (validateAllFields_shape validate form fields Hall)
    as (d & ds & res & _ & Hrun & _).
  eexists _, res. split; [exact Hrun|].
  match type of Hrun with
  | _ = (?l, _) => remember l as effs eqn:Heffs
  end.
  assert (callbacks effs = []) as Hnone.
  { subst effs. rewrite !app_comm_cons, callbacks_app.
    assert (∀ (e1 e2 : @Effect RuleItem) l,
              isCallback e1 = false → isCallback e2 = false →
              callbacks (e1 :: e2 :: l) = callbacks l) as Hskip
      by (by intros e1 e2 l; unfold callbacks; simpl; intros -> ->).
    rewrite Hskip by done. by rewrite callbacks_dispatch. }
  split; [exact Hnone|].
  assert (submitForm onFinish onFinishFailed validate form fields =
        (PreventDefault :: StopPropagation :: effs
           ++ (if res_isValid res
               then if onFinish then [OnFinish (values res)] else []
               else if onFinishFailed
                    then [OnFinishFailed (values res) (res_errors res)]
                    else []),
         Returned tt)) as Hsub.
  { unfold submitForm. rewrite Hrun. simpl.
    by destruct (res_isValid res), onFinish, onFinishFailed. }
  split; [exact Hsub|].
  intros -> ->. rewrite Hsub. simpl fst.
  change (callbacks (PreventDefault :: StopPropagation :: ?l))
    with (callbacks l).
  rewrite callbacks_app, Hnone. by destruct (res_isValid res).
Qed.

Lemma inputsOf_lookup fields n :
  inputsOf fields !! n = (λ r, (value r, rules r)) <$> fields !! n.
Proof. apply lookup_fmap. Qed.

(** Two stores with the same values and rules resolve to the same
    descriptor and the same value map. *)
Lemma inputsOf_descriptor fields fields' :
  inputsOf fields' = inputsOf fields →
  descriptorOf fields' = descriptorOf fields
  ∧ mapValues value fields' = mapValues value fields.
Proof.
  intros Heq.
  assert (∀ n, (λ r, (value r, rules r)) <$> fields' !! n
               = (λ r, (value r, rules r)) <$> fields !! n) as Hpt.
  { intros n. by rewrite <- !inputsOf_lookup, Heq. }
  assert (getFieldValue fields' = getFieldValue fields) as Hget.
  { apply functional_extensionality. intros k. unfold getFieldValue.
    specialize (Hpt k).
    destruct (fields' !! k), (fields !! k); by simplify_eq/=. }
  assert (resolveRule fields' = resolveRule fields) as Hres.
  { apply functional_extensionality. intros [r|f]; simpl; [done|].
    by rewrite Hget. }
  assert (hasRules fields' ↔ hasRules fields) as Hiff.
  { split; intros Hall n r Hn; specialize (Hpt n); rewrite Hn in Hpt.
    - destruct (fields' !! n) as [r'|] eqn:Hn'; simplify_eq/=.
      rewrite <- H0. by apply (Hall n r').
    - destruct (fields !! n) as [r'|] eqn:Hn'; simplify_eq/=.
      rewrite H0. by apply (Hall n r'). }
  split.
  - destruct (decide (hasRules fields)) as [Hall|Hno].
    + rewrite (descriptorOf_hasRules fields Hall),
        (descriptorOf_hasRules fields' (proj2 Hiff Hall)).
      apply (f_equal Returned), map_eq. intros n. rewrite !lookup_omap.
      specialize (Hpt n).
      destruct (fields' !! n) as [r1|], (fields !! n) as [r2|];
        simplify_eq/=; [|done].
      unfold resolvedRules. rewrite H0.
      destruct (rules r2); [|done]. by rewrite Hres.
    + rewrite (descriptorOf_TypeError fields Hno).
      apply descriptorOf_TypeError. by rewrite Hiff.
  - apply map_eq. intros n. unfold mapValues. rewrite !lookup_fmap.
    specialize (Hpt n).
    destruct (fields' !! n), (fields !! n); simplify_eq/=; congruence.
Qed.

(** Validation results written for registered names leave the values and
    the rules of the store as they were. *)
Lemma foldl_results_inputs (ds : list (@FieldsAction RuleItem)) :
  ∀ state,
    Forall (λ a, ∃ n b es,
              a = updateValidateResult n b es ∧ is_Some (state !! n)) ds →
    inputsOf (foldl fieldsReducer state ds) = inputsOf state
    ∧ ∀ n, is_Some (state !! n) →
           is_Some (foldl fieldsReducer state ds !! n).
Proof.
  induction ds as [|a ds IH]; intros state Hds; [done|].
  apply Forall_cons in Hds as [(n & b & es & -> & [r Hr]) Hds].
  simpl. rewrite Hr. simpl.
  assert (inputsOf (<[n := with_result b es r]> state) = inputsOf state)
    as Hstep.
  { unfold inputsOf. rewrite fmap_insert. simpl.
    apply insert_id. by rewrite lookup_fmap, Hr. }
  destruct (IH (<[n := with_result b es r]> state)) as [Hin Hdom].
  - eapply Forall_impl; [exact Hds|].
    intros a (m & b' & es' & -> & Hm). exists m, b', es'.
    split; [done|]. destruct (decide (n = m)) as [<-|Hne].
    + rewrite lookup_insert_eq. eauto.
    + by rewrite lookup_insert_ne.
  - split; [by rewrite Hin|]. intros m Hm. apply Hdom.
    destruct (decide (n = m)) as [<-|Hne].
    + rewrite lookup_insert_eq. eauto.
    + by rewrite lookup_insert_ne.
Qed.

(** C7.  A second call of [validateAllFields], made on the state the first
    call left and with nothing dispatched in between, completes as the
    first did, with the same [{isValid, errors, values}]: the dispatches of
    the first call leave the values and the rules of every field as they
    were.  The engine is a function of the descriptor and the value map. *)
Theorem validateAllFields_idempotent validate form fields :
  inputsOf
    (w_fields (runEffects {| w_form := form; w_fields := fields |}
                 (validateAllFields validate form fields).1))
    = inputsOf fields
  ∧ (validateAllFields validate
       (w_form (runEffects {| w_form := form; w_fields := fields |}
                  (validateAllFields validate form fields).1))
       (w_fields (runEffects {| w_form := form; w_fields := fields |}
                    (validateAllFields validate form fields).1))).2
    = (validateAllFields validate form fields).2.
Proof.
  assert (inputsOf
    (w_fields (runEffects {| w_form := form; w_fields := fields |}
                 (validateAllFields validate form fields).1))
    = inputsOf fields) as Hin.
  { rewrite runEffects_fields. simpl.
    destruct (decide (hasRules fields)) as [Hall|Hno].
    - destruct (validateAllFields_shape validate form fields Hall)
        as (d & ds & res & _ & -> & _ & Hds & _).
      simpl. rewrite dispatched_app, dispatched_fmap. simpl.
      rewrite app_nil_r. by apply foldl_results_inputs.
    - unfold validateAllFields.
      by rewrite (descriptorOf_TypeError _ Hno). }
  split; [exact Hin|].
  destruct (inputsOf_descriptor _ _ Hin) as [Hd Hv].
  unfold validateAllFields at 1 4. rewrite Hd, Hv.
  destruct (descriptorOf fields) as [d|]; [|done].
  by destruct (validate d (mapValues value fields)).
Qed.

End Validation.

(** C8 at the store of the scenario, for the field "a". *)
Lemma fieldsReducer_frame_witness :
  abStore !! "a" = Some (registration "a" (JString "") [Static requiredRule])
  ∧ fieldsReducer abStore (updateValue "a" (JString "y")) !! "b"
      = abStore !! "b".
Proof.
  split; [reflexivity|].
  refine (proj1 (proj2 (fieldsReducer_frame abStore "a" _ (JString "y")
                          true [] noFields _)) "b" _).
  - reflexivity.
  - discriminate.
Defined.

(** C2 as stated fails: on the empty store, both actions addressed to the
    unknown name "ghost" return a store that is not the input. *)
Lemma unknown_field_not_noop :
  (∅ : gmap string (@FieldDetail Rule)) !! "ghost" = None
  ∧ fieldsReducer (∅ : gmap string (@FieldDetail Rule))
      (updateValue "ghost" (JNumber 1)) ≠ ∅
  ∧ fieldsReducer (∅ : gmap string (@FieldDetail Rule))
      (updateValidateResult "ghost" true []) ≠ ∅.
Proof.
  split; [reflexivity|]. split; intros H.
  - apply (f_equal (λ m, m !! "ghost")) in H. simpl in H.
    rewrite lookup_insert_eq, lookup_empty in H. discriminate.
  - apply (f_equal (λ m, m !! "ghost")) in H. simpl in H.
    rewrite lookup_insert_eq, lookup_empty in H. discriminate.
Qed.

Lemma unknown_field_transition_witness :
  abStore !! "ghost" = None
  ∧ fieldsReducer abStore (updateValue "ghost" (JNumber 1)) !! "ghost" =
      Some {| label := None; name := None; value := JNumber 1;
              rules := None; isValid := None; errors := None |}.
Proof.
  split; [reflexivity|].
  refine (proj1
    (unknown_field_transition abStore "ghost" (JNumber 1) true [] _)).
  reflexivity.
Defined.

(** C1, on the code.  [staleStore] holds a field "a" that an earlier pass
    left invalid and that now satisfies its rule.  The engine resolves and
    [validateAllFields] returns [isValid=true] and [errors={}], but it
    dispatches nothing: after the call the store still shows "a" as invalid,
    with the error of the earlier pass. *)
Lemma validateAllFields_success_keeps_stale :
  simpleValidate (omap (resolvedRules staleStore) staleStore)
    (mapValues value staleStore) = Resolved
  ∧ (validateAllFields simpleValidate initialForm staleStore).2
    = Returned {| res_isValid := true; res_errors := ∅;
                  values := {[ "a" := JString "x" ]} |}
  ∧ dispatched (validateAllFields simpleValidate initialForm staleStore).1 = []
  ∧ (w_fields (runEffects {| w_form := initialForm; w_fields := staleStore |}
                (validateAllFields simpleValidate initialForm staleStore).1)
       !! "a") ≫= isValid = Some false
  ∧ (w_fields (runEffects {| w_form := initialForm; w_fields := staleStore |}
                (validateAllFields simpleValidate initialForm staleStore).1)
       !! "a") ≫= errors = Some (ErrorList [requiredError "a"]).
Proof. repeat split; vm_compute; reflexivity. Qed.


(** The store after the aggregate validation of [abStore]: "a" is invalid
    with its error, "b" is valid. *)
Example validateAllFields_abStore :
  let after :=
    w_fields (runEffects {| w_form := initialForm; w_fields := abStore |}
                (validateAllFields simpleValidate initialForm abStore).1) in
  (after !! "a") ≫= isValid = Some false
  ∧ (after !! "a") ≫= errors = Some (ErrorList [requiredError "a"])
  ∧ (after !! "b") ≫= isValid = Some true
  ∧ (after !! "b") ≫= errors = Some (ErrorList []).
Proof. repeat split; vm_compute; reflexivity. Qed.

Lemma validateField_never_throws_witness :
  abStore !! "a" = Some (registration "a" (JString "") [Static requiredRule])
  ∧ rules (registration "a" (JString "") [Static requiredRule])
      = Some [Static requiredRule]
  ∧ ∃ b es,
      dispatched (validateField simpleValidate abStore "a").1
        = [updateValidateResult "a" b es].
Proof.
  split; [reflexivity|]. split; [reflexivity|].
  destruct (validateField_never_throws simpleValidate abStore "a"
              (registration "a" (JString "") [Static requiredRule])
              [Static requiredRule] eq_refl eq_refl)
    as (b & es & _ & Hd & _).
  exists b, es. exact Hd.
Defined.

Lemma abStore_hasRules : hasRules abStore.
Proof.
  apply (bool_decide_eq_true_1 (hasRules abStore)). vm_compute. reflexivity.
Defined.

Lemma validateAllFields_isSubmitting_witness :
  hasRules abStore
  ∧ isSubmitting (w_form {| w_form := initialForm; w_fields := abStore |})
      = false
  ∧ (isSubmitting
       (w_form (rt_world (runTicks None true true simpleValidate
                            initialRuntime (take 4 overlappingTicks))))
     = true →
     aggregateInFlight (runTicks None true true simpleValidate
                          initialRuntime (take 4 overlappingTicks))).
Proof.
  split; [exact abStore_hasRules|]. split; [reflexivity|].
  destruct (validateAllFields_isSubmitting simpleValidate initialForm abStore
              {| w_form := initialForm; w_fields := abStore |}
              abStore_hasRules eq_refl)
    as (d & ds & res & _ & _ & _ & Hinv).
  apply Hinv.
Defined.

(** The run of the overlapping calls: the flag is set while the submission is
    suspended and cleared once it has resumed; the field keeps the result of
    the aggregate pass, which saw the value from before the edit. *)
Example overlappingTicks_run :
  isSubmitting (w_form (rt_world (runTicks None true true simpleValidate
                                    initialRuntime (take 4 overlappingTicks))))
    = true
  ∧ isSubmitting (w_form (rt_world (runTicks None true true simpleValidate
                                      initialRuntime overlappingTicks)))
    = false
  ∧ rt_pending (runTicks None true true simpleValidate
                  initialRuntime overlappingTicks) = []
  ∧ (w_fields (rt_world (runTicks None true true simpleValidate
                           initialRuntime overlappingTicks)) !! "a")
      ≫= isValid = Some false.
Proof. repeat split; vm_compute; reflexivity. Qed.

Lemma submitForm_callbacks_witness :
  hasRules abStore
  ∧ ∃ res,
      callbacks (submitForm true true simpleValidate initialForm abStore).1
      = [if res_isValid res then OnFinish (values res)
         else OnFinishFailed (values res) (res_errors res)].
Proof.
  split; [exact abStore_hasRules|].
  destruct (submitForm_callbacks true true simpleValidate initialForm abStore
              abStore_hasRules)
    as (effs & res & _ & _ & _ & Hone).
  exists res. apply Hone; reflexivity.
Defined.




(** C6.  [transfromRules] maps the rule list element by element, keeping
    order and length: a static rule is kept, a generator is replaced by what
    it returns for the accessor [getFieldValue] of the store at hand.  That
    accessor reads the current value of a field, so it follows [updateValue];
    and every call of [validateField] or [validateAllFields] hands the
    engine the rules resolved against the store of that call.  In the
    scenario of the two password
    fields, [validateField("confirm")] fails while the two values differ and
    succeeds after an [updateValue] of either field that makes them equal. *)
Theorem transfromRules_late_binding :
  (∀ (RuleItem : Type) (fields : gmap string (@FieldDetail RuleItem)) rs,
     ∃ out,
       transfromRules fields (Some rs) = Returned out
       ∧ length out = length rs
       ∧ ∀ i rule, rs !! i = Some rule →
           out !! i = Some match rule with
                           | Static r => r
                           | Generator f => f (getFieldValue fields)
                           end)
  ∧ (∀ (RuleItem : Type) (fields : gmap string (@FieldDetail RuleItem)) n r v,
       fields !! n = Some r →
       getFieldValue fields n = value r
       ∧ getFieldValue (fieldsReducer fields (updateValue n v)) n = v)
  ∧ (∀ (RuleItem : Type) validate
       (fields : gmap string (@FieldDetail RuleItem)) n r rs,
       fields !! n = Some r → rules r = Some rs →
       EngineValidate {[ n := resolveRule fields <$> rs ]} {[ n := value r ]}
         ∈ (validateField validate fields n).1)
  ∧ (∀ (RuleItem : Type) (fields : gmap string (@FieldDetail RuleItem))
       d n r rs,
       descriptorOf fields = Returned d →
       fields !! n = Some r → rules r = Some rs →
       d !! n = Some (resolveRule fields <$> rs))
  ∧ dispatched (validateField simpleValidate passwordStore "confirm").1
    = [updateValidateResult "confirm" false
         [mkValidateError "confirm is invalid" "confirm"]]
  ∧ dispatched
      (validateField simpleValidate
         (fieldsReducer passwordStore
            (updateValue "confirm" (JString "abc123"))) "confirm").1
    = [updateValidateResult "confirm" true []]
  ∧ dispatched
      (validateField simpleValidate
         (fieldsReducer passwordStore
            (updateValue "password" (JString "xyz"))) "confirm").1
    = [updateValidateResult "confirm" true []].
Proof.
  split; [|split; [|split; [|split]]].
  - intros RuleItem fields rs. eexists. split; [reflexivity|].
    split; [apply length_fmap|].
    intros i rule Hi. rewrite list_lookup_fmap, Hi. by destruct rule.
  - intros RuleItem fields n r v Hn. unfold getFieldValue. simpl.
    by rewrite lookup_insert_eq, Hn.
  - intros RuleItem validate fields n r rs Hn Hrs.
    unfold validateField. rewrite Hn, Hrs. simpl. apply list_elem_of_here.
  - intros RuleItem fields d n r rs Hd Hn Hrs.
    rewrite (descriptorOf_lookup _ _ n Hd), Hn. simpl.
    unfold resolvedRules. by rewrite Hrs.
  - repeat split; vm_compute; reflexivity.
Qed.

Lemma transfromRules_late_binding_witness :
  passwordStore !! "password"
    = Some (registration "password" (JString "abc123") [])
  ∧ getFieldValue passwordStore "password" = JString "abc123"
  ∧ getFieldValue
      (fieldsReducer passwordStore (updateValue "password" (JString "xyz")))
      "password" = JString "xyz".
Proof.
  split; [reflexivity|].
  refine (proj1 (proj2 transfromRules_late_binding) Rule passwordStore
            "password" (registration "password" (JString "abc123") [])
            (JString "xyz") _).
  reflexivity.
Defined.

(** * Further properties of the store *)

Section StoreAlgebra.
Context {RuleItem : Type}.
Implicit Types (state : gmap string (@FieldDetail RuleItem)).
Implicit Types (r : @FieldDetail RuleItem) (a c : @FieldsAction RuleItem).

(** X1.  A registration overwrites whatever was done to that name before:
    [addField] after any action addressed to the same name gives the store
    that [addField] alone gives (last writer wins, nothing is merged). *)
Theorem addField_last_wins state a r :
  fieldsReducer (fieldsReducer state a) (addField (actionName a) r)
  = fieldsReducer state (addField (actionName a) r).
Proof. destruct a; simpl; apply insert_insert_eq. Qed.

(** X2.  Of two [updateValue]s, or two [updateValidateResult]s, addressed to
    the same name only the second leaves a trace, on any store. *)
Theorem update_last_wins state n v1 v2 ok1 es1 ok2 es2 :
  fieldsReducer (fieldsReducer state (updateValue n v1)) (updateValue n v2)
    = fieldsReducer state (updateValue n v2)
  ∧ fieldsReducer (fieldsReducer state (updateValidateResult n ok1 es1))
      (updateValidateResult n ok2 es2)
    = fieldsReducer state (updateValidateResult n ok2 es2).
Proof.
  split; simpl; rewrite lookup_insert_eq, insert_insert_eq; reflexivity.
Qed.

(** X3.  Actions addressed to different names commute, and so do a value
    update and a result update of the same name, registered or not: the
    order in which dispatches of an edit and of a validation result reach
    the store does not matter for the store. *)
Theorem actions_commute state a c n v ok es :
  actionName a ≠ actionName c →
  fieldsReducer (fieldsReducer state a) c
    = fieldsReducer (fieldsReducer state c) a
  ∧ fieldsReducer (fieldsReducer state (updateValue n v))
      (updateValidateResult n ok es)
    = fieldsReducer (fieldsReducer state (updateValidateResult n ok es))
        (updateValue n v).
Proof.
  intros Hne. split.
  - destruct a as [na ra|na va|na ba ea], c as [nb rb|nb vb|nb bb eb];
      simpl in *; rewrite ?lookup_insert_ne by done;
      by apply insert_insert_ne.
  - simpl. by rewrite !lookup_insert_eq, !insert_insert_eq.
Qed.

(** X4.  What [getFieldValue] reads after each action: the new value at the
    name an [updateValue] or [addField] was addressed to, and what it read
    before everywhere else; an [updateValidateResult] changes no reading,
    also when its name was unknown (the reading stays [undefined]). *)
Theorem getFieldValue_after state n m v ok es r :
  getFieldValue (fieldsReducer state (updateValue n v)) m
    = (if decide (m = n) then v else getFieldValue state m)
  ∧ getFieldValue (fieldsReducer state (addField n r)) m
    = (if decide (m = n) then value r else getFieldValue state m)
  ∧ getFieldValue (fieldsReducer state (updateValidateResult n ok es)) m
    = getFieldValue state m.
Proof.
  unfold getFieldValue. simpl.
  destruct (decide (m = n)) as [->|Hne].
  - rewrite !lookup_insert_eq. repeat split. by destruct (state !! n).
  - by rewrite !lookup_insert_ne.
Qed.

(** X5.  [getFieldsValue] lists exactly the names of the store, and
    [getFieldValue] reads from it with [undefined] for the others.  An
    [updateValue] shows in it as an insertion, for an unknown name as well;
    an [updateValidateResult] leaves it as it is for a registered name and
    adds an [undefined] entry for an unknown one. *)
Theorem getFieldsValue_after state n v ok es :
  dom (getFieldsValue state) = dom state
  ∧ (∀ m, getFieldValue state m
          = default JUndefined (getFieldsValue state !! m))
  ∧ getFieldsValue (fieldsReducer state (updateValue n v))
    = <[n := v]> (getFieldsValue state)
  ∧ getFieldsValue (fieldsReducer state (updateValidateResult n ok es))
    = (if decide (is_Some (state !! n)) then getFieldsValue state
       else <[n := JUndefined]> (getFieldsValue state)).
Proof.
  unfold getFieldsValue, mapValues. split; [apply dom_fmap_L|].
  split; [|split].
  - intros m. unfold getFieldValue. rewrite lookup_fmap.
    by destruct (state !! m).
  - simpl. by rewrite fmap_insert.
  - simpl. rewrite fmap_insert. case_decide as Hn.
    + destruct Hn as [r Hr]. rewrite Hr. simpl.
      apply insert_id. by rewrite lookup_fmap, Hr.
    + apply eq_None_not_Some in Hn. by rewrite Hn.
Qed.

(** X6.  [setFieldValue(n, v)] dispatches when [n] is registered or is the
    name of a member of [Object.prototype]; [n] then reads [v] and every
    other name reads what it read before.  For any other [n] every reading
    is as before.  In all cases what a FormItem shows as error and the form
    state are untouched: setting a value never clears or raises an error. *)
Theorem setFieldValue_reads (w : @World RuleItem) n m v :
  getFieldValue
    (w_fields (runEffects w (setFieldValue (w_fields w) n v))) m
  = (if decide (m = n ∧ (is_Some (w_fields w !! n) ∨ inheritedName n = true))
     then v else getFieldValue (w_fields w) m)
  ∧ explain (w_fields (runEffects w (setFieldValue (w_fields w) n v))) m
    = explain (w_fields w) m
  ∧ w_form (runEffects w (setFieldValue (w_fields w) n v)) = w_form w.
Proof.
  unfold setFieldValue, hasProperty, getFieldValue, explain.
  destruct (w_fields w !! n) as [r|] eqn:Hn; simpl.
  - destruct (decide (m = n)) as [->|Hne].
    + rewrite lookup_insert_eq, Hn, decide_True by eauto. done.
    + rewrite lookup_insert_ne by done.
      rewrite decide_False; [done|]. by intros [? _].
  - destruct (inheritedName n) eqn:Hi; simpl.
    + destruct (decide (m = n)) as [->|Hne].
      * rewrite lookup_insert_eq, Hn, decide_True by eauto. done.
      * rewrite lookup_insert_ne by done.
        rewrite decide_False; [done|]. by intros [? _].
    + rewrite decide_False; [done|]. intros [_ [[? ?]|?]]; done.
Qed.

End StoreAlgebra.

Lemma actions_commute_witness :
  actionName (updateValue (RuleItem:=Rule) "a" (JString "y"))
    ≠ actionName (updateValidateResult (RuleItem:=Rule) "b" false [])
  ∧ fieldsReducer
      (fieldsReducer abStore (updateValue "a" (JString "y")))
      (updateValidateResult "b" false [])
    = fieldsReducer
        (fieldsReducer abStore (updateValidateResult "b" false []))
        (updateValue "a" (JString "y")).
Proof.
  assert (actionName (updateValue (RuleItem:=Rule) "a" (JString "y"))
          ≠ actionName (updateValidateResult (RuleItem:=Rule) "b" false []))
    as Hne by discriminate.
  split; [exact Hne|].
  exact (proj1 (actions_commute abStore _ _ "a" JNull true [] Hne)).
Defined.

(** * Further properties of the validators *)

Section ValidatorEdges.
Context {RuleItem : Type}.
Implicit Types (fields state : gmap string (@FieldDetail RuleItem)).
Implicit Types (w : @World RuleItem) (r : @FieldDetail RuleItem).
Implicit Types
  (validate : gmap string (list RuleItem) → gmap string JsValue → Settled).

(** X7.  [validateField] throws exactly when the name has no record or its
    record has no [rules]; it then throws before doing anything (no call of
    the engine, no dispatch).  In every other case it returns. *)
Theorem validateField_throws validate fields n :
  (validateField validate fields n = ([], TypeError)
   ↔ ¬ ∃ r, fields !! n = Some r ∧ is_Some (rules r))
  ∧ ((validateField validate fields n).2 = Returned tt
     ↔ ∃ r, fields !! n = Some r ∧ is_Some (rules r)).
Proof.
  unfold validateField. destruct (fields !! n) as [r|] eqn:Hn.
  - destruct (rules r) as [rs|] eqn:Hrs; simpl.
    + assert (∃ r', Some r = Some r' ∧ is_Some (rules r')) as Hreg
        by (exists r; rewrite Hrs; eauto).
      split; split; [done| |done|done].
      intros Hno. by destruct Hno.
    + assert (¬ ∃ r', Some r = Some r' ∧ is_Some (rules r')) as Hno.
      { intros (r' & [= <-] & [? Hr']). congruence. }
      split; split; [done|done|done|]. intros Hreg. by destruct Hno.
  - assert (¬ ∃ r', None = Some r' ∧ is_Some (rules r')) as Hno
      by (by intros (r' & ? & _)).
    split; split; [done|done|done|]. intros Hreg. by destruct Hno.
Qed.

(** X8.  [validateAllFields] throws exactly when some record of the store
    has no [rules], and then before any effect: [isSubmitting] is not set
    and the engine is not called.  Otherwise it returns a result. *)
Theorem validateAllFields_throws validate form fields :
  (validateAllFields validate form fields = ([], TypeError)
   ↔ ¬ hasRules fields)
  ∧ ((∃ res, (validateAllFields validate form fields).2 = Returned res)
     ↔ hasRules fields).
Proof.
  destruct (decide (hasRules fields)) as [Hr|Hr].
  - destruct (validateAllFields_shape validate form fields Hr)
      as (d & ds & res & _ & Hrun & _).
    rewrite Hrun. split; split; try done. intros _. by exists res.
  - unfold validateAllFields. rewrite (descriptorOf_TypeError _ Hr).
    split; split; try done. by intros [res ?].
Qed.

(** X9.  On a store in which some record has no [rules], [submitForm]
    suppresses the event and then fails: no callback is invoked, the form
    state is not touched and the engine is not called. *)
Theorem submitForm_throws onFinish onFinishFailed validate form fields :
  ¬ hasRules fields →
  submitForm onFinish onFinishFailed validate form fields
  = ([PreventDefault; StopPropagation], TypeError).
Proof.
  intros Hr. unfold submitForm, validateAllFields.
  by rewrite (descriptorOf_TypeError _ Hr).
Qed.

(** X10.  An [updateValue] or [updateValidateResult] dispatched for a name
    that is not registered leaves a record without [rules] behind, and from
    then on [validateField] of that name and every [validateAllFields]
    throw; a later registration of the name repairs the store. *)
Theorem unknown_update_poisons validate form state n v ok es r :
  state !! n = None →
  validateField validate (fieldsReducer state (updateValue n v)) n
    = ([], TypeError)
  ∧ validateAllFields validate form (fieldsReducer state (updateValue n v))
    = ([], TypeError)
  ∧ validateAllFields validate form
      (fieldsReducer state (updateValidateResult n ok es))
    = ([], TypeError)
  ∧ (hasRules state → is_Some (rules r) →
     hasRules (fieldsReducer (fieldsReducer state (updateValue n v))
                 (addField n r))).
Proof.
  intros Hn.
  assert (∀ a : @FieldsAction RuleItem,
            actionName a = n → (∀ r', a ≠ addField n r') →
            ¬ hasRules (fieldsReducer state a)) as Hbad.
  { intros a <- Ha Hall.
    pose proof (Hall (actionName a) _ (fieldsReducer_lookup_eq state a))
      as [rs Hrs].
    destruct a; simpl in *; [by eapply Ha| |]; by rewrite Hn in Hrs. }
  split; [|split; [|split]].
  - unfold validateField. simpl. by rewrite lookup_insert_eq, Hn.
  - unfold validateAllFields. by rewrite descriptorOf_TypeError by by apply Hbad.
  - unfold validateAllFields. by rewrite descriptorOf_TypeError by by apply Hbad.
  - intros Hall Hr m r' Hm. simpl in Hm.
    rewrite insert_insert_eq in Hm.
    destruct (decide (n = m)) as [<-|Hne].
    + rewrite lookup_insert_eq in Hm. by injection Hm as <-.
    + rewrite lookup_insert_ne in Hm by done. exact (Hall _ _ Hm).
Qed.

(** X11.  After [validateField] of a registered field with rules, the record
    of that field has the verdict of the engine as [isValid] and [errors]
    and every other property as before; every other record and the form
    state are untouched; and the FormItem of the field explains the first
    error of the verdict, or nothing when there is none. *)
Theorem validateField_store_after validate w n r rs :
  w_fields w !! n = Some r → rules r = Some rs →
  (∀ m, w_fields (runEffects w (validateField validate (w_fields w) n).1) !! m
        = if decide (m = n)
          then Some (with_result
                       (verdict (validate
                                   {[ n := resolveRule (w_fields w) <$> rs ]}
                                   {[ n := value r ]})).1
                       (verdict (validate
                                   {[ n := resolveRule (w_fields w) <$> rs ]}
                                   {[ n := value r ]})).2 r)
          else w_fields w !! m)
  ∧ w_form (runEffects w (validateField validate (w_fields w) n).1)
    = w_form w
  ∧ explain (w_fields (runEffects w (validateField validate (w_fields w) n).1))
      n
    = Returned
        (head (message <$>
                 (verdict (validate {[ n := resolveRule (w_fields w) <$> rs ]}
                                    {[ n := value r ]})).2)).
Proof.
  intros Hn Hrs. unfold validateField, explain, verdict.
  rewrite Hn. simpl. rewrite Hrs. simpl. rewrite Hn. simpl.
  split; [|split; [done|]].
  - intros m. destruct (decide (m = n)) as [->|Hne].
    + rewrite lookup_insert_eq. by destruct (validate _ _).
    + by rewrite lookup_insert_ne.
  - rewrite lookup_insert_eq. simpl.
    destruct (validate _ _) as [|err]; simpl; [done|].
    by destruct (err_errors err).
Qed.

Lemma redistribute_step (errs : gmap string (list ValidateError)) state k r :
  state !! k = Some r →
  foldl fieldsReducer state (dispatched (redistribute errs r k))
  = <[k := settledRecord errs k r]> state.
Proof.
  intros Hk. unfold redistribute, settledRecord.
  destruct (readErrors errs k); [|destruct (rules r) as [[|]|]]; simpl;
    rewrite ?Hk; simpl; try done; symmetry; by apply insert_id.
Qed.

(** Replaying the redistribution of an aggregate error over a store that
    holds the records it was computed from. *)
Lemma foldl_redistribute (errs : gmap string (list ValidateError))
    (l : list (string * @FieldDetail RuleItem)) :
  ∀ state, NoDup l.*1 →
    (∀ k r, (k, r) ∈ l → state !! k = Some r) →
    ∀ m, foldl fieldsReducer state
           (dispatched (l ≫= λ kv, redistribute errs kv.2 kv.1)) !! m
         = match (list_to_map l : gmap string FieldDetail) !! m with
           | Some r => Some (settledRecord errs m r)
           | None => state !! m
           end.
Proof.
  induction l as [|[k r] l IH]; intros state Hnd Hin m; [done|].
  rewrite fmap_cons in Hnd. apply NoDup_cons in Hnd as [Hk Hnd].
  assert ((list_to_map l : gmap string FieldDetail) !! k = None) as Hl
    by by apply not_elem_of_list_to_map_1.
  rewrite bind_cons, dispatched_app, foldl_app. simpl.
  rewrite redistribute_step by (apply Hin, list_elem_of_here).
  rewrite IH; [|done|].
  - destruct (decide (k = m)) as [<-|Hne].
    + by rewrite Hl, !lookup_insert_eq.
    + by rewrite !lookup_insert_ne.
  - intros k' r' Hin'. rewrite lookup_insert_ne.
    + apply Hin. by apply list_elem_of_further.
    + intros <-. apply Hk. apply list_elem_of_fmap. by exists (k, r').
Qed.

(** X12.  The store after [validateAllFields]: when the engine resolves, no
    record is touched; when it rejects, every record is the [settledRecord]
    of what it was: a field for which [errors[name]] reads something (its
    entry in the error mapping, or else the member of [Object.prototype] of
    its name) has [isValid=false] and what was read as [errors], a field for
    which it reads nothing and that declared a rule has [isValid=true] and
    no errors, a field for which it reads nothing and without rule is as
    before.  No record is added or removed. *)
Theorem validateAllFields_store_after validate form w d m :
  descriptorOf (w_fields w) = Returned d →
  w_fields (runEffects w (validateAllFields validate form (w_fields w)).1)
    !! m
  = match validate d (mapValues value (w_fields w)) with
    | Resolved => w_fields w !! m
    | Rejected err => settledRecord (err_fields err) m <$> w_fields w !! m
    end.
Proof.
  intros Hd. rewrite runEffects_fields. unfold validateAllFields.
  rewrite Hd. destruct (validate _ _) as [|err]; [done|]. simpl.
  rewrite dispatched_app, app_nil_r. unfold each.
  rewrite (foldl_redistribute (err_fields err) (map_to_list (w_fields w))).
  - rewrite list_to_map_to_list. by destruct (w_fields w !! m).
  - apply NoDup_fst_map_to_list.
  - intros k r Hin. by apply elem_of_map_to_list.
Qed.

(** X13.  Whatever form state the call closed over and whatever state it
    runs on, after [validateAllFields] the form state is the returned
    result with [isSubmitting] cleared: [form.isValid] and [form.errors] are
    the returned [isValid] and [errors]. *)
Theorem validateAllFields_form_after validate form fields w :
  hasRules fields →
  ∃ res,
    (validateAllFields validate form fields).2 = Returned res
    ∧ w_form (runEffects w (validateAllFields validate form fields).1)
      = {| form_isValid := res_isValid res; isSubmitting := false;
           form_errors := res_errors res |}.
Proof.
  intros Hr.
  destruct (validateAllFields_shape validate form fields Hr)
    as (d & ds & res & _ & Hrun & _).
  exists res. rewrite Hrun. split; [done|]. cbn [fst].
  rewrite runEffects_form, !app_comm_cons, setForms_app. simpl.
  by rewrite setForms_dispatch.
Qed.

(** X14.  A submission changes the state of the hook exactly as the
    [validateAllFields] it runs: suppressing the event and invoking a
    callback change neither store nor form state; on a store that makes
    [validateAllFields] throw, nothing changes at all. *)
Theorem submitForm_state onFinish onFinishFailed validate form fields w :
  runEffects w (submitForm onFinish onFinishFailed validate form fields).1
  = runEffects w (validateAllFields validate form fields).1.
Proof.
  unfold submitForm.
  destruct ((validateAllFields validate form fields).2) as [res|]; [|done].
  simpl. rewrite runEffects_app.
  by destruct (res_isValid res), onFinish, onFinishFailed.
Qed.

End ValidatorEdges.

(** * Registration, editing and reset *)

Section FormItemProperties.
Context {RuleItem : Type}.
Implicit Types (fields state : gmap string (@FieldDetail RuleItem)).
Implicit Types (w : @World RuleItem) (r : @FieldDetail RuleItem).
Implicit Types
  (validate : gmap string (list RuleItem) → gmap string JsValue → Settled).

(** The store after [resetFields], name by name. *)
Lemma resetFields_lookup (ivs : option (gmap string JsValue)) w k :
  w_fields (runEffects w (resetFields ivs (w_fields w))) !! k
  = match ivs ≫= (λ m, (list_to_map (visited m) : gmap string JsValue) !! k)
    with
    | Some v =>
        if hasProperty (w_fields w) k
        then Some (with_value v (spread (w_fields w !! k)))
        else w_fields w !! k
    | None => w_fields w !! k
    end.
Proof.
  destruct ivs as [ivs|]; simpl; [|done].
  apply resetFields_visited_lookup.
Qed.

Lemma resetFields_form (ivs : option (gmap string JsValue)) w fields :
  w_form (runEffects w (resetFields ivs fields)) = w_form w.
Proof.
  rewrite runEffects_form. destruct ivs as [ivs|]; [|done].
  assert (Forall (λ e, ∃ a, e = Dispatch a) (resetFields (Some ivs) fields))
    as Hd.
  { apply Forall_forall. intros e He.
    apply resetFields_elem in He as (n & v & -> & _). eauto. }
  by rewrite (all_dispatch _ Hd), setForms_dispatch.
Qed.

(** X15.  [resetFields] is idempotent: a second reset, run on the store the
    first one left, changes nothing; and no reset touches the form state. *)
Theorem resetFields_idempotent (ivs : option (gmap string JsValue)) w :
  w_fields
    (runEffects (runEffects w (resetFields ivs (w_fields w)))
       (resetFields ivs
          (w_fields (runEffects w (resetFields ivs (w_fields w))))))
  = w_fields (runEffects w (resetFields ivs (w_fields w)))
  ∧ w_form
      (runEffects (runEffects w (resetFields ivs (w_fields w)))
         (resetFields ivs
            (w_fields (runEffects w (resetFields ivs (w_fields w))))))
    = w_form w.
Proof.
  split; [|by rewrite !resetFields_form].
  apply map_eq. intros k.
  rewrite (resetFields_lookup ivs (runEffects w _) k).
  unfold hasProperty at 1. rewrite !resetFields_lookup.
  destruct (ivs ≫= _) as [v|]; [|done].
  unfold hasProperty.
  destruct (w_fields w !! k) as [r|]; [done|].
  by destruct (inheritedName k).
Qed.

(** X16.  An edit of a registered field that has an initial value, in
    initial values that lodash does not take for array-like, is forgotten
    by [resetFields]: resetting after the input event gives the store that
    resetting without it gives. *)
Theorem resetFields_forgets_edit (ivs : gmap string JsValue) w n v :
  arrayLikeLength ivs = None →
  is_Some (w_fields w !! n) → is_Some (ivs !! n) →
  w_fields
    (runEffects (runEffects w (onValueUpdate n v))
       (resetFields (Some ivs)
          (w_fields (runEffects w (onValueUpdate n v)))))
  = w_fields (runEffects w (resetFields (Some ivs) (w_fields w))).
Proof.
  intros Harr [r Hr] [iv Hiv]. apply map_eq. intros m.
  rewrite !resetFields_lookup. simpl.
  rewrite (visited_plain_map ivs Harr). unfold hasProperty.
  destruct (decide (n = m)) as [<-|Hne].
  - by rewrite lookup_insert_eq, Hr, Hiv.
  - by rewrite lookup_insert_ne.
Qed.

(** X17.  The mount effect of a FormItem registers a complete record,
    whatever was stored under the name before: the field reads its initial
    value, shows no error, [validateField] of it returns, and a store whose
    records carry rules stays such a store.  Other fields are untouched. *)
Theorem mountField_registers validate ivs lbl n rs w m :
  getFieldValue (w_fields (runEffects w (mountField ivs lbl n rs))) n
    = initialValueOf ivs n
  ∧ explain (w_fields (runEffects w (mountField ivs lbl n rs))) n
    = Returned None
  ∧ (validateField validate
       (w_fields (runEffects w (mountField ivs lbl n rs))) n).2
    = Returned tt
  ∧ (hasRules (w_fields w) →
     hasRules (w_fields (runEffects w (mountField ivs lbl n rs))))
  ∧ (m ≠ n →
     w_fields (runEffects w (mountField ivs lbl n rs)) !! m
     = w_fields w !! m).
Proof.
  simpl. unfold getFieldValue, explain, validateField.
  rewrite !lookup_insert_eq. simpl.
  split; [done|]. split; [done|]. split; [done|]. split.
  - intros Hall k r Hk. destruct (decide (n = k)) as [<-|Hne].
    + rewrite lookup_insert_eq in Hk. injection Hk as <-. simpl. eauto.
    + rewrite lookup_insert_ne in Hk by done. exact (Hall _ _ Hk).
  - intros Hne. by rewrite lookup_insert_ne.
Qed.

(** X18.  The initial value a field mounts with is what
    [initialValues[name]] reads when that is truthy (the own entry, or the
    member of [Object.prototype] of that name when there is no own entry),
    and the empty string otherwise; [resetFields] writes the own entry as
    it is given.  So, for initial values that lodash does not take for
    array-like, after mount, any edit and a reset the field holds the given
    initial value; for an initial value of [0], [false] or [null] this is
    not the value the field had after mount. *)
Theorem mount_edit_reset (ivs : gmap string JsValue) lbl n rs w v edit :
  arrayLikeLength ivs = None →
  ivs !! n = Some v →
  getFieldValue
    (w_fields (runEffects w (mountField (Some ivs) lbl n rs))) n
    = (if truthy v then v else JString "")
  ∧ getFieldValue
      (w_fields
         (runEffects
            (runEffects (runEffects w (mountField (Some ivs) lbl n rs))
               (onValueUpdate n edit))
            (resetFields (Some ivs)
               (w_fields
                  (runEffects
                     (runEffects w (mountField (Some ivs) lbl n rs))
                     (onValueUpdate n edit)))))) n
    = v
  ∧ (∀ ivs' : gmap string JsValue,
       ivs' !! n = None →
       getFieldValue
         (w_fields (runEffects w (mountField (Some ivs') lbl n rs))) n
       = (if inheritedName n then JMember n else JString "")).
Proof.
  intros Harr Hv. split; [|split].
  - simpl. unfold getFieldValue. rewrite lookup_insert_eq.
    unfold mountRecord, initialValueOf, readValue. simpl. by rewrite Hv.
  - unfold getFieldValue. rewrite resetFields_lookup. simpl.
    rewrite (visited_plain_map ivs Harr), Hv. unfold hasProperty.
    by rewrite !lookup_insert_eq.
  - intros ivs' Hnone. simpl. unfold getFieldValue.
    rewrite lookup_insert_eq.
    unfold mountRecord, initialValueOf, readValue. simpl. rewrite Hnone.
    by destruct (inheritedName n).
Qed.

End FormItemProperties.

(** * Calls that overlap *)

Section Overlap.
Context {RuleItem : Type}.
Implicit Types (rt : @Runtime RuleItem) (r : @FieldDetail RuleItem).
Implicit Types
  (validate : gmap string (list RuleItem) → gmap string JsValue → Settled).

(** X19.  A form whose store is only written by registrations that carry
    rules and by updates of registered names, those dispatched by
    [setFieldValue] and [resetFields] included, never throws: in every state
    such a form can reach, however its calls overlap, the records carry
    rules, [validateAllFields] returns a result and [submitForm] returns. *)
Theorem wellBehaved_never_throws ivs onFinish onFinishFailed validate ts :
  okTicks ivs onFinish onFinishFailed validate initialRuntime ts →
  hasRules (w_fields (rt_world (runTicks ivs onFinish onFinishFailed
                                  validate initialRuntime ts)))
  ∧ (∃ res,
       (validateAllFields validate
          (w_form (rt_world (runTicks ivs onFinish onFinishFailed
                               validate initialRuntime ts)))
          (w_fields (rt_world (runTicks ivs onFinish onFinishFailed
                                 validate initialRuntime ts)))).2
       = Returned res)
  ∧ (submitForm onFinish onFinishFailed validate
       (w_form (rt_world (runTicks ivs onFinish onFinishFailed
                            validate initialRuntime ts)))
       (w_fields (rt_world (runTicks ivs onFinish onFinishFailed
                              validate initialRuntime ts)))).2
    = Returned tt.
Proof.
  intros Hok.
  pose proof (initialRuntime_hasRules _ _ _ _ _ Hok) as Hr.
  split; [exact Hr|].
  destruct (validateAllFields_shape validate
              (w_form (rt_world (runTicks ivs onFinish onFinishFailed
                                   validate initialRuntime ts)))
              _ Hr) as (d & ds & res & _ & Hrun & _).
  split.
  - exists res. by rewrite Hrun.
  - unfold submitForm. by rewrite Hrun.
Qed.

(** X20.  A single-field validation that was started before an edit and
    resumes after it writes the verdict on the value it started with, next
    to the newer value: the record ends with the edited value and the
    [isValid] and [errors] the engine gave for the old one.  No call is
    left suspended that was not suspended before. *)
Theorem stale_verdict ivs onFinish onFinishFailed validate rt n r rs v :
  w_fields (rt_world rt) !! n = Some r → rules r = Some rs →
  w_fields (rt_world
    (runTicks ivs onFinish onFinishFailed validate rt
       [Start (CallValidateField n);
        Start (CallDispatch (updateValue n v));
        Resume (length (rt_pending rt))])) !! n
  = Some (with_result
            (verdict (validate
                        {[ n := resolveRule (w_fields (rt_world rt)) <$> rs ]}
                        {[ n := value r ]})).1
            (verdict (validate
                        {[ n := resolveRule (w_fields (rt_world rt)) <$> rs ]}
                        {[ n := value r ]})).2
            (with_value v r))
  ∧ rt_pending
      (runTicks ivs onFinish onFinishFailed validate rt
         [Start (CallValidateField n);
          Start (CallDispatch (updateValue n v));
          Resume (length (rt_pending rt))])
    = rt_pending rt.
Proof.
  intros Hn Hrs. unfold runTicks. simpl. unfold validateField.
  rewrite Hn. simpl. rewrite Hrs. simpl.
  rewrite (list_lookup_middle (rt_pending rt) [] _ _ eq_refl). simpl.
  rewrite !lookup_insert_eq, Hn. simpl.
  rewrite (delete_middle (rt_pending rt) []), app_nil_r.
  split; [|done]. unfold verdict. by destruct (validate _ _).
Qed.

End Overlap.

(** * What the engine is given and what the caller gets *)

Section EngineContract.
Context {RuleItem : Type}.
Implicit Types (fields : gmap string (@FieldDetail RuleItem)).
Implicit Types (w : @World RuleItem).
Implicit Types
  (validate : gmap string (list RuleItem) → gmap string JsValue → Settled).

Lemma descriptorOf_dom fields d :
  descriptorOf fields = Returned d → dom d = dom fields.
Proof.
  intros Hd. pose proof (descriptorOf_Returned_inv _ _ Hd) as Hall.
  apply set_eq. intros k. rewrite !elem_of_dom.
  rewrite (descriptorOf_lookup _ _ k Hd).
  destruct (fields !! k) as [r|] eqn:Hk; simpl.
  - destruct (Hall k r Hk) as [rs Hrs]. unfold resolvedRules.
    rewrite Hrs. split; eauto.
  - split; by intros [? ?].
Qed.

(** X21.  Every call of the engine made by [validateField] or by
    [validateAllFields] passes a descriptor and a value map with the same
    keys: the one field for the former, all registered names for the
    latter. *)
Theorem engine_calls_keyed validate form fields n d vm :
  EngineValidate d vm ∈ (validateField validate fields n).1
  ∨ EngineValidate d vm ∈ (validateAllFields validate form fields).1 →
  dom d = dom vm
  ∧ (EngineValidate d vm ∈ (validateField validate fields n).1 →
     dom d = {[ n ]})
  ∧ (EngineValidate d vm ∈ (validateAllFields validate form fields).1 →
     dom d = dom fields).
Proof.
  assert (EngineValidate d vm ∈ (validateField validate fields n).1 →
          dom d = {[ n ]} ∧ dom vm = {[ n ]}) as Hone.
  { unfold validateField. destruct (fields !! n) as [r|]; simpl;
      [|by intros ?%not_elem_of_nil].
    destruct (rules r) as [rs|]; simpl; [|by intros ?%not_elem_of_nil].
    intros [He|He]%elem_of_cons.
    - injection He as -> ->. by rewrite !dom_singleton_L.
    - by apply list_elem_of_singleton in He. }
  assert (EngineValidate d vm ∈ (validateAllFields validate form fields).1 →
          dom d = dom fields ∧ dom vm = dom fields) as Hall.
  { destruct (decide (hasRules fields)) as [Hr|Hr].
    - destruct (validateAllFields_shape validate form fields Hr)
        as (d' & ds & res & Hd & -> & _).
      simpl. intros [He|He]%elem_of_cons; [done|].
      apply elem_of_cons in He as [He|He].
      + injection He as -> ->. split; [by apply descriptorOf_dom|].
        apply dom_fmap_L.
      + apply elem_of_app in He as [He|He].
        * by apply list_elem_of_fmap in He as (a & ? & _).
        * by apply list_elem_of_singleton in He.
    - unfold validateAllFields. rewrite (descriptorOf_TypeError _ Hr).
      by intros ?%not_elem_of_nil. }
  intros [He|He]; (split; [|split]).
  - destruct (Hone He) as [-> ->]. done.
  - intros _. by destruct (Hone He).
  - intros He'. by destruct (Hall He').
  - destruct (Hall He) as [-> ->]. done.
  - intros He'. by destruct (Hone He').
  - intros _. by destruct (Hall He).
Qed.

(** X22.  The [values] that [validateAllFields] returns are what
    [getFieldsValue] gave when the call started, and, with no other
    dispatch in between, still what it gives once the call is over. *)
Theorem validateAllFields_values validate form w :
  hasRules (w_fields w) →
  ∃ res,
    (validateAllFields validate form (w_fields w)).2 = Returned res
    ∧ values res = getFieldsValue (w_fields w)
    ∧ getFieldsValue
        (w_fields
           (runEffects w (validateAllFields validate form (w_fields w)).1))
      = values res.
Proof.
  intros Hr.
  destruct (validateAllFields_shape validate form (w_fields w) Hr)
    as (d & ds & res & _ & Hrun & Hvals & Hds & _).
  exists res. rewrite Hrun. split; [done|]. split; [done|].
  rewrite Hvals, runEffects_fields. cbn [fst].
  rewrite !app_comm_cons, dispatched_app. simpl.
  rewrite dispatched_fmap, app_nil_r.
  destruct (foldl_results_inputs ds (w_fields w) Hds) as [Hin _].
  exact (proj2 (inputsOf_descriptor _ _ Hin)).
Qed.

End EngineContract.

(** * The further properties at the stores of the scenarios *)

Lemma validateField_throws_witness :
  (∃ r, abStore !! "a" = Some r ∧ is_Some (rules r))
  ∧ (validateField simpleValidate abStore "a").2 = Returned tt.
Proof.
  assert (∃ r, abStore !! "a" = Some r ∧ is_Some (rules r)) as Hreg.
  { eexists. split; [reflexivity|]. simpl. eauto. }
  split; [exact Hreg|].
  exact (proj2 (proj2 (validateField_throws simpleValidate abStore "a")) Hreg).
Defined.

Lemma validateAllFields_throws_witness :
  hasRules abStore
  ∧ ∃ res, (validateAllFields simpleValidate initialForm abStore).2
           = Returned res.
Proof.
  split; [exact abStore_hasRules|].
  exact (proj2 (proj2 (validateAllFields_throws simpleValidate initialForm
                         abStore)) abStore_hasRules).
Defined.

Lemma ghostStore_not_hasRules :
  ¬ hasRules (fieldsReducer abStore (updateValue "ghost" (JNumber 1))).
Proof.
  apply (bool_decide_eq_false_1
           (hasRules (fieldsReducer abStore (updateValue "ghost" (JNumber 1))))).
  vm_compute. reflexivity.
Defined.

Lemma submitForm_throws_witness :
  ¬ hasRules (fieldsReducer abStore (updateValue "ghost" (JNumber 1)))
  ∧ submitForm true true simpleValidate initialForm
      (fieldsReducer abStore (updateValue "ghost" (JNumber 1)))
    = ([PreventDefault; StopPropagation], TypeError).
Proof.
  split; [exact ghostStore_not_hasRules|].
  exact (submitForm_throws true true simpleValidate initialForm _
           ghostStore_not_hasRules).
Defined.

Lemma unknown_update_poisons_witness :
  abStore !! "ghost" = None
  ∧ validateAllFields simpleValidate initialForm
      (fieldsReducer abStore (updateValue "ghost" (JNumber 1)))
    = ([], TypeError).
Proof.
  split; [reflexivity|].
  exact (proj1 (proj2 (unknown_update_poisons simpleValidate initialForm
                         abStore "ghost" (JNumber 1) true [] noFields
                         eq_refl))).
Defined.

Lemma validateField_store_after_witness :
  abStore !! "a" = Some (registration "a" (JString "") [Static requiredRule])
  ∧ rules (registration "a" (JString "") [Static requiredRule])
    = Some [Static requiredRule]
  ∧ w_form (runEffects {| w_form := initialForm; w_fields := abStore |}
              (validateField simpleValidate abStore "a").1)
    = initialForm.
Proof.
  split; [reflexivity|]. split; [reflexivity|].
  exact (proj1 (proj2 (validateField_store_after simpleValidate
                         {| w_form := initialForm; w_fields := abStore |}
                         "a" _ _ eq_refl eq_refl))).
Defined.

Lemma validateAllFields_store_after_witness :
  descriptorOf abStore = Returned (omap (resolvedRules abStore) abStore)
  ∧ w_fields (runEffects {| w_form := initialForm; w_fields := abStore |}
                (validateAllFields simpleValidate initialForm abStore).1)
      !! "b"
    = match simpleValidate (omap (resolvedRules abStore) abStore)
              (mapValues value abStore) with
      | Resolved => abStore !! "b"
      | Rejected err => settledRecord (err_fields err) "b" <$> abStore !! "b"
      end.
Proof.
  assert (descriptorOf abStore
          = Returned (omap (resolvedRules abStore) abStore)) as Hd
    by (vm_compute; reflexivity).
  split; [exact Hd|].
  exact (validateAllFields_store_after simpleValidate initialForm
           {| w_form := initialForm; w_fields := abStore |} _ "b" Hd).
Defined.

Lemma validateAllFields_form_after_witness :
  hasRules abStore
  ∧ ∃ res,
      (validateAllFields simpleValidate initialForm abStore).2 = Returned res
      ∧ w_form (runEffects initialWorld
                  (validateAllFields simpleValidate initialForm abStore).1)
        = {| form_isValid := res_isValid res; isSubmitting := false;
             form_errors := res_errors res |}.
Proof.
  split; [exact abStore_hasRules|].
  exact (validateAllFields_form_after simpleValidate initialForm abStore
           initialWorld abStore_hasRules).
Defined.

Lemma resetFields_forgets_edit_witness :
  arrayLikeLength {[ "a" := JString "init" ]} = None
  ∧ is_Some (abStore !! "a")
  ∧ is_Some (({[ "a" := JString "init" ]} : gmap string JsValue) !! "a")
  ∧ w_fields
      (runEffects
         (runEffects {| w_form := initialForm; w_fields := abStore |}
            (onValueUpdate "a" (JString "typed")))
         (resetFields (Some {[ "a" := JString "init" ]})
            (w_fields
               (runEffects {| w_form := initialForm; w_fields := abStore |}
                  (onValueUpdate "a" (JString "typed"))))))
    = w_fields
        (runEffects {| w_form := initialForm; w_fields := abStore |}
           (resetFields (Some {[ "a" := JString "init" ]}) abStore)).
Proof.
  assert (is_Some (abStore !! "a")) as Ha by (eexists; reflexivity).
  assert (is_Some (({[ "a" := JString "init" ]} : gmap string JsValue)
                     !! "a")) as Hi by (eexists; reflexivity).
  split; [reflexivity|]. split; [exact Ha|]. split; [exact Hi|].
  exact (resetFields_forgets_edit {[ "a" := JString "init" ]}
           {| w_form := initialForm; w_fields := abStore |}
           "a" (JString "typed") eq_refl Ha Hi).
Defined.

Lemma mountField_registers_witness :
  hasRules abStore
  ∧ hasRules
      (w_fields (runEffects {| w_form := initialForm; w_fields := abStore |}
                   (mountField None None "c" None))).
Proof.
  split; [exact abStore_hasRules|].
  exact (proj1 (proj2 (proj2 (proj2
           (mountField_registers simpleValidate None None "c" None
              {| w_form := initialForm; w_fields := abStore |} "a"))))
           abStore_hasRules).
Defined.

Lemma mount_edit_reset_witness :
  arrayLikeLength {[ "n" := JNumber 0 ]} = None
  ∧ ({[ "n" := JNumber 0 ]} : gmap string JsValue) !! "n" = Some (JNumber 0)
  ∧ getFieldValue
      (w_fields (runEffects (initialWorld (RuleItem:=Rule))
                   (mountField (Some {[ "n" := JNumber 0 ]}) None "n" None)))
      "n"
    = (if truthy (JNumber 0) then JNumber 0 else JString "").
Proof.
  split; [reflexivity|]. split; [reflexivity|].
  exact (proj1 (mount_edit_reset {[ "n" := JNumber 0 ]} None "n" None
                  initialWorld (JNumber 0) (JString "7") eq_refl eq_refl)).
Defined.

Lemma guardedTicks_ok :
  okTicks (Some {[ "a" := JString "init" ]}) true true simpleValidate
    initialRuntime guardedTicks.
Proof.
  vm_compute.
  repeat split; repeat constructor; eexists; reflexivity.
Defined.

Lemma wellBehaved_never_throws_witness :
  okTicks (Some {[ "a" := JString "init" ]}) true true simpleValidate
    initialRuntime guardedTicks
  ∧ hasRules
      (w_fields (rt_world (runTicks (Some {[ "a" := JString "init" ]})
                             true true simpleValidate
                             initialRuntime guardedTicks))).
Proof.
  split; [exact guardedTicks_ok|].
  exact (proj1 (wellBehaved_never_throws (Some {[ "a" := JString "init" ]})
                  true true simpleValidate guardedTicks guardedTicks_ok)).
Defined.

Lemma stale_verdict_witness :
  abStore !! "a" = Some (registration "a" (JString "") [Static requiredRule])
  ∧ rt_pending
      (runTicks None true true simpleValidate
         {| rt_world := {| w_form := initialForm; w_fields := abStore |};
            rt_pending := [] |}
         [Start (CallValidateField "a");
          Start (CallDispatch (updateValue "a" (JString "x")));
          Resume 0])
    = [].
Proof.
  split; [reflexivity|].
  exact (proj2 (stale_verdict None true true simpleValidate
                  {| rt_world := {| w_form := initialForm;
                                    w_fields := abStore |};
                     rt_pending := [] |}
                  "a" _ [Static requiredRule] (JString "x")
                  eq_refl eq_refl)).
Defined.

Lemma engine_calls_keyed_witness :
  (EngineValidate (omap (resolvedRules abStore) abStore)
     (mapValues value abStore)
     ∈ (validateField simpleValidate abStore "a").1
   ∨ EngineValidate (omap (resolvedRules abStore) abStore)
       (mapValues value abStore)
       ∈ (validateAllFields simpleValidate initialForm abStore).1)
  ∧ dom (omap (resolvedRules abStore) abStore)
    = dom (mapValues value abStore).
Proof.
  assert (EngineValidate (omap (resolvedRules abStore) abStore)
            (mapValues value abStore)
            ∈ (validateField simpleValidate abStore "a").1
          ∨ EngineValidate (omap (resolvedRules abStore) abStore)
              (mapValues value abStore)
              ∈ (validateAllFields simpleValidate initialForm abStore).1)
    as Hin.
  { right. vm_compute. apply list_elem_of_further, list_elem_of_here. }
  split; [exact Hin|].
  exact (proj1 (engine_calls_keyed simpleValidate initialForm abStore "a"
                  _ _ Hin)).
Defined.

Lemma validateAllFields_values_witness :
  hasRules abStore
  ∧ ∃ res,
      (validateAllFields simpleValidate initialForm abStore).2 = Returned res
      ∧ values res = getFieldsValue abStore
      ∧ getFieldsValue
          (w_fields
             (runEffects {| w_form := initialForm; w_fields := abStore |}
                (validateAllFields simpleValidate initialForm abStore).1))
        = values res.
Proof.
  split; [exact abStore_hasRules|].
  exact (validateAllFields_values simpleValidate initialForm
           {| w_form := initialForm; w_fields := abStore |}
           abStore_hasRules).
Defined.
